(** * magelib: module containers and the tar archiving module

    A shallow embedding of
      - [ctx/artifacts.go]                 (module [ctx]),
      - the [modules] package              (module [modules]: [Modules],
        [Add], [UnmarshalYAML], [Run]),
      - [internal/modules/archive/tar.go]  (module [archive]),
    followed by the properties proved about them.

    Conventions.  A Go [error] is modelled by its message (the text
    [Error()] returns); [fmt.Errorf] with [%w] yields the formatted text
    with the cause's message spliced in.  A Go [map] is a [gmap]; where
    the program ranges over a map, the order of the keys is an explicit
    argument constrained to be a permutation of the map's entries, since
    Go leaves that order unspecified.  Pointers to shared state
    ([*ctx.Context], [*Modules]) become explicit state passing. *)

From Stdlib Require Import ZArith List Ascii String.
From stdpp Require Import base option list strings gmap pretty.

Local Open Scope Z_scope.

(** ** Outcomes of Go calls *)

(** The message of a Go [error] value. *)
Definition error : Type := string.

(** What a Go call can do: return normally, return a non-nil [error],
    panic at run time, or never return. *)
Inductive outcome (A : Type) : Type :=
| Ok (a : A)
| Err (e : error)
| Panics (why : string)
| Loops.
Arguments Ok {A} a.
Arguments Err {A} e.
Arguments Panics {A} why.
Arguments Loops {A}.

Definition obind {A B : Type} (m : outcome A) (k : A → outcome B) : outcome B :=
  match m with
  | Ok a => k a
  | Err e => Err e
  | Panics w => Panics w
  | Loops => Loops
  end.

Definition is_Ok {A : Type} (m : outcome A) : bool :=
  match m with Ok _ => true | _ => false end.

Definition is_Err {A : Type} (m : outcome A) : bool :=
  match m with Err _ => true | _ => false end.

(** ** The parts of Go's standard library the code calls *)

Module gostd.

(** [strings.HasPrefix] and [strings.TrimPrefix]. *)
Fixpoint HasPrefix (s p : string) : bool :=
  match p, s with
  | EmptyString, _ => true
  | String c p', String d s' => if Ascii.eqb c d then HasPrefix s' p' else false
  | String _ _, EmptyString => false
  end.

Fixpoint drop_chars (n : nat) (s : string) : string :=
  match n, s with
  | O, _ => s
  | S n', String _ s' => drop_chars n' s'
  | S _, EmptyString => EmptyString
  end.

Definition TrimPrefix (s p : string) : string :=
  if HasPrefix s p then drop_chars (String.length p) s else s.

(** [strings.Contains]. *)
Fixpoint Contains (s substr : string) : bool :=
  HasPrefix s substr ||
  match s with
  | EmptyString => false
  | String _ s' => Contains s' substr
  end.

(** [strings.Join]. *)
Fixpoint Join (elems : list string) (sep : string) : string :=
  match elems with
  | [] => ""
  | [e] => e
  | e :: rest => e +:+ sep +:+ Join rest sep
  end.

(** [sort.Strings]: ascending order of the byte-wise comparison. *)
Fixpoint insert_sorted (x : string) (l : list string) : list string :=
  match l with
  | [] => [x]
  | y :: l' => if String.leb x y then x :: l else y :: insert_sorted x l'
  end.

Definition sort_Strings (l : list string) : list string :=
  foldr insert_sorted [] l.

(** Splitting at the slashes: [split_slash "a/b" = ["a"; "b"]]; the
    accumulator [cur] holds the current component reversed. *)
Fixpoint split_go (cur : string) (s : string) : list string :=
  match s with
  | EmptyString => [String.rev cur]
  | String c s' =>
      if Ascii.eqb c "/"%char then String.rev cur :: split_go "" s'
      else split_go (String c cur) s'
  end.

Definition split_slash (s : string) : list string := split_go "" s.

(** [path.Clean].  The components are processed left to right on a
    stack kept in reverse: empty and [.] components vanish, [..] removes
    the last real component, is kept in front of a relative path and is
    dropped at the root. *)
Definition clean_step (rooted : bool) (stack : list string) (comp : string)
  : list string :=
  if String.eqb comp "" || String.eqb comp "." then stack
  else if String.eqb comp ".." then
    match stack with
    | top :: below =>
        if String.eqb top ".." then (if rooted then stack else comp :: stack)
        else below
    | [] => if rooted then stack else [comp]
    end
  else comp :: stack.

Definition Clean (p : string) : string :=
  match p with
  | EmptyString => "."
  | String c _ =>
      let rooted := Ascii.eqb c "/"%char in
      let stack := fold_left (clean_step rooted) (split_slash p) [] in
      let body := Join (rev stack) "/" in
      if rooted then "/" +:+ body
      else if String.eqb body "" then "." else body
  end.

(** [path.Split] keeps everything up to and including the final slash
    in the directory part; [path.Dir] cleans that part. *)
Fixpoint dir_part (comps : list string) : string :=
  match comps with
  | [] | [_] => ""
  | c :: rest => c +:+ "/" +:+ dir_part rest
  end.

Definition Dir (p : string) : string := Clean (dir_part (split_slash p)).

(** [path.Join]: empty leading elements are skipped, every element
    after the first one kept is preceded by a slash, and the result is
    cleaned; all elements empty gives the empty string. *)
Fixpoint join_buf (buf : string) (elems : list string) : string :=
  match elems with
  | [] => buf
  | e :: rest =>
      if negb (String.eqb buf "") then join_buf (buf +:+ "/" +:+ e) rest
      else if negb (String.eqb e "") then join_buf e rest
      else join_buf buf rest
  end.

Definition path_Join (elems : list string) : string :=
  if forallb (λ e, String.eqb e "") elems then ""
  else Clean (join_buf "" elems).

End gostd.

(** ** Package [ctx] *)

Module ctx.

(** The artifact formats, numbered by [iota] from 1. *)
Definition FormatRaw : Z := 1.
Definition FormatGZip : Z := 2.
Definition FormatUPX : Z := 3.
Definition FormatTar : Z := 4.
Definition FormatZip : Z := 5.

Record Artifact : Type := mkArtifact {
  Arch : string;
  Filename : string;
  Format : Z;
  Location : string;
  Name : string;
  OS : string;
}.

(** [Artifacts] is a slice of artifacts. *)
Abbreviation Artifacts := (list Artifact).

Definition Add (arts : Artifacts) (artifact : Artifact) : Artifacts :=
  arts ++ [artifact].

Definition ByName (arts : Artifacts) (name : string) : Artifacts :=
  filter (λ a, Name a = name) arts.

Definition OsArch (art : Artifact) : string := OS art +:+ "-" +:+ Arch art.

(** The Build Context: the fields of [ctx.Context] the code reads or
    writes. *)
Record Context : Type := mkContext {
  ProjectName : string;
  Version : string;
  TargetDir : string;
  Publish : bool;
  Artifacts_ : Artifacts;
}.

Definition with_Artifacts (c : Context) (arts : Artifacts) : Context :=
  {| ProjectName := ProjectName c; Version := Version c;
     TargetDir := TargetDir c; Publish := Publish c; Artifacts_ := arts |}.

End ctx.

(** ** Package [modules] *)

(** [gopkg.in/yaml.v3] nodes, as far as the code inspects them. *)
Module yaml.

Inductive Kind : Type :=
| DocumentNode | SequenceNode | MappingNode | ScalarNode | AliasNode.

Global Instance Kind_eq_dec : EqDecision Kind.
Proof. solve_decision. Defined.

#[warnings="-register-all"]
Inductive Node : Type :=
| mkNode (kind : Kind) (value : string) (content : list Node).

Definition Kind_ (n : Node) : Kind := match n with mkNode k _ _ => k end.
Definition Value (n : Node) : string := match n with mkNode _ v _ => v end.
Definition Content (n : Node) : list Node := match n with mkNode _ _ c => c end.

End yaml.

Module modules.

(** What the log receives.  Durations and the upper-casing of the stage
    name are presentation only, so a line is kept by its kind and its
    subject instead of its text. *)
Inductive LogLine : Type :=
| StageBegin (stage : string)      (* "====> STAGE" *)
| StageSkipped                     (* "SKIPPED" *)
| StageEnd (stage : string)        (* "<==== STAGE done in ..." *)
| ModuleBegin (type : string)      (* "----> type" *)
| ModuleEnd (type : string).       (* "<---- type done in ..." *)

Section Container.

(** Whatever a module may change besides the Build Context (files on
    disk, the network, ...). *)
Context {W : Type}.

(** [Pluggable]: the one-method interface.  A value of the interface is
    the behaviour of its [Run] on the Build Context it is handed. *)
Record Pluggable : Type := mkPluggable {
  Run : ctx.Context → W → ctx.Context * W * outcome unit;
}.

Definition PluggableFactory : Type := unit → Pluggable.

Record Module : Type := mkModule {
  Type_ : string;
  Pluggable_ : Pluggable;
}.

(** [loaded] is a Go map that starts out [nil]. *)
Record Modules : Type := mkModules {
  Stage : string;
  SkipFn : option (ctx.Context → bool);
  Modules_ : list Module;
  loaded : option (gmap string bool);
}.

Definition NewModules (stage : string) : Modules :=
  {| Stage := stage; SkipFn := None; Modules_ := []; loaded := None |}.

(** The registry table filled by [RegisterModule] at start-up. *)
Variable registry : gmap string PluggableFactory.

(** Modelled from the spec: [LookupModule] lives in a file of the package
    that is not part of the sources at hand; the spec gives
    [lookup(kind) -> (factory, found)], by exact key. *)
Definition LookupModule (kind : string) : option PluggableFactory :=
  registry !! kind.

(** [node.Decode(targetMod)] of yaml.v3: overwrites the fields of the
    freshly made module that the node mentions, or fails. *)
Variable Decode : yaml.Node → Pluggable → Pluggable + error.

Definition isLoaded (mod_ : Modules) (kind : string) : bool :=
  match loaded mod_ with
  | None => false
  | Some m => bool_decide (is_Some (m !! kind))
  end.

Definition flagLoaded (mod_ : Modules) (kind : string) : Modules :=
  let m := match loaded mod_ with None => ∅ | Some m => m end in
  {| Stage := Stage mod_; SkipFn := SkipFn mod_; Modules_ := Modules_ mod_;
     loaded := Some (<[kind := true]> m) |}.

Definition append_module (mod_ : Modules) (m : Module) : Modules :=
  {| Stage := Stage mod_; SkipFn := SkipFn mod_;
     Modules_ := Modules_ mod_ ++ [m]; loaded := loaded mod_ |}.

(** The probing loop of [Add] over [mod.Stage] and the wildcard stage:
    [kind] keeps the last key tried, and the loop leaves at the first
    hit. *)
Fixpoint probe (stages : list string) (itemType : string) (kind : string)
  : string * option PluggableFactory :=
  match stages with
  | [] => (kind, None)
  | stage :: rest =>
      let kind := stage +:+ ":" +:+ itemType in
      match LookupModule kind with
      | Some f => (kind, Some f)
      | None => probe rest itemType kind
      end
  end.

(** [Add] from the [once] test on, for the kind and factory found. *)
Definition Add_resolved (mod_ : Modules) (itemType : string)
    (node : option yaml.Node) (once : bool)
    (kind : string) (targetModFactory : PluggableFactory)
  : Modules * option error :=
  if once && isLoaded mod_ kind then
    (mod_, Some ("module " +:+ kind +:+ " already loaded"))
  else
    let targetMod := targetModFactory () in
    let decoded :=
      match node with
      | None => inl targetMod
      | Some n => Decode n targetMod
      end in
    match decoded with
    | inr err => (mod_, Some ("cannot decode module " +:+ kind +:+ ": " +:+ err))
    | inl targetMod =>
        let mod_ := append_module mod_
                     {| Type_ := itemType; Pluggable_ := targetMod |} in
        (flagLoaded mod_ kind, None)
    end.

Definition Add (mod_ : Modules) (itemType : string) (node : option yaml.Node)
    (once : bool) : Modules * option error :=
  match probe [Stage mod_; "*"] itemType "" with
  | (_, None) =>
      (mod_, Some ("unknown module " +:+ Stage mod_ +:+ ":" +:+ itemType))
  | (kind, Some targetModFactory) =>
      Add_resolved mod_ itemType node once kind targetModFactory
  end.

(** [getType]: the loop reads [Content[idx]] and [Content[idx+1]] before
    it looks at the key, so a content of odd length panics. *)
Fixpoint getType_from (content : list yaml.Node) : outcome string :=
  match content with
  | [] => Err "type not defined"
  | [_] => Panics "index out of range"
  | key :: val :: rest =>
      if String.eqb (yaml.Value key) "type" then Ok (yaml.Value val)
      else getType_from rest
  end.

Definition getType (node : yaml.Node) : outcome string :=
  getType_from (yaml.Content node).

(** The loop of [UnmarshalYAML] from index [idx] on. *)
Fixpoint UnmarshalYAML_from (mod_ : Modules) (idx : nat)
    (children : list yaml.Node) : Modules * outcome unit :=
  match children with
  | [] => (mod_, Ok ())
  | child :: rest =>
      if negb (bool_decide (yaml.Kind_ child = yaml.MappingNode)) then
        (mod_, Err ("item #" +:+ pretty (idx + 1)%nat +:+ " of `" +:+ Stage mod_
                   +:+ "` definition is not a map"))
      else
        match getType child with
        | Err err =>
            (mod_, Err ("definition " +:+ Stage mod_ +:+ ", item #"
                       +:+ pretty (idx + 1)%nat +:+ ": " +:+ err))
        | Panics w => (mod_, Panics w)
        | Loops => (mod_, Loops)
        | Ok itemType =>
            match Add mod_ itemType (Some child) false with
            | (mod_, Some err) => (mod_, Err err)
            | (mod_, None) => UnmarshalYAML_from mod_ (S idx) rest
            end
        end
  end.

Definition UnmarshalYAML (mod_ : Modules) (node : yaml.Node)
  : Modules * outcome unit :=
  if negb (bool_decide (yaml.Kind_ node = yaml.SequenceNode)) then
    (mod_, Err ("definition of `" +:+ Stage mod_ +:+ "` is not a sequence"))
  else UnmarshalYAML_from mod_ 0 (yaml.Content node).

(** The state a stage runs in: the shared Build Context, the rest of
    the world, and the log written so far. *)
Record State : Type := mkState {
  context : ctx.Context;
  world : W;
  log : list LogLine;
}.

Definition logf (st : State) (l : LogLine) : State :=
  {| context := context st; world := world st; log := log st ++ [l] |}.

(** [run]: the modules one by one, stopping at the first error. *)
Fixpoint run_from (stage : string) (mods : list Module) (st : State)
  : State * outcome unit :=
  match mods with
  | [] => (st, Ok ())
  | module :: rest =>
      let st := logf st (ModuleBegin (Type_ module)) in
      match Run (Pluggable_ module) (context st) (world st) with
      | (c, w, Ok _) =>
          let st := {| context := c; world := w; log := log st |} in
          run_from stage rest (logf st (ModuleEnd (Type_ module)))
      | (c, w, Err err) =>
          ({| context := c; world := w; log := log st |},
           Err (stage +:+ ":" +:+ Type_ module +:+ ": " +:+ err))
      | (c, w, Panics why) =>
          ({| context := c; world := w; log := log st |}, Panics why)
      | (c, w, Loops) =>
          ({| context := c; world := w; log := log st |}, Loops)
      end
  end.

Definition run (mod_ : Modules) (st : State) : State * outcome unit :=
  run_from (Stage mod_) (Modules_ mod_) st.

(** [Modules.Run] ([Run] itself names the method of [Pluggable]). *)
Definition Run_ (mod_ : Modules) (st : State) : State * outcome unit :=
  let st := logf st (StageBegin (Stage mod_)) in
  let skip :=
    match SkipFn mod_ with
    | None => false
    | Some f => f (context st)
    end in
  if skip then
    let st := logf st StageSkipped in
    (logf st (StageEnd (Stage mod_)), Ok ())
  else
    match run mod_ st with
    | (st, Ok _) => (logf st (StageEnd (Stage mod_)), Ok ())
    | (st, other) => (st, other)
    end.

End Container.

Arguments Pluggable : clear implicits.
Arguments PluggableFactory : clear implicits.
Arguments Module : clear implicits.
Arguments Modules : clear implicits.
Arguments State : clear implicits.

End modules.

(** ** Go's [archive/tar] writer and the file system *)

Module tar.

Inductive Typeflag : Type :=
| TypeReg | TypeDir | TypeChar | TypeFifo.

(** The fields of [tar.Header] that decide what the writer accepts;
    permissions and times are carried along by the real header and
    play no part here. *)
Record Header : Type := mkHeader {
  hName : string;
  hSize : Z;
  hTypeflag : Typeflag;
}.

(** What [os.Stat] reports about a file. *)
Inductive FileKind : Type :=
| Regular | Directory | Device | NamedPipe | Socket.

Record FileInfo : Type := mkFileInfo {
  fiName : string;
  fiSize : Z;
  fiKind : FileKind;
}.

(** [tar.FileInfoHeader(fi, "")]: only a regular file carries its size
    into the header. *)
Definition FileInfoHeader (fi : FileInfo) : outcome Header :=
  match fiKind fi with
  | Regular => Ok {| hName := fiName fi; hSize := fiSize fi; hTypeflag := TypeReg |}
  | Directory => Ok {| hName := fiName fi +:+ "/"; hSize := 0; hTypeflag := TypeDir |}
  | Device => Ok {| hName := fiName fi; hSize := 0; hTypeflag := TypeChar |}
  | NamedPipe => Ok {| hName := fiName fi; hSize := 0; hTypeflag := TypeFifo |}
  | Socket => Err "archive/tar: sockets not supported"
  end.

Definition with_Name (h : Header) (name : string) : Header :=
  {| hName := name; hSize := hSize h; hTypeflag := hTypeflag h |}.

(** One member of the archive as it stands in the output: its header
    and the content bytes that followed it. *)
Record Entry : Type := mkEntry {
  eHeader : Header;
  eData : list Byte.byte;
}.

(** The writer: the members written so far (the last one is the current
    one), the bytes the current member still expects, and whether the
    end-of-archive trailer went out. *)
Record Writer : Type := mkWriter {
  entries : list Entry;
  nb : Z;
  trailer : bool;
}.

Definition NewWriter : Writer := {| entries := []; nb := 0; trailer := false |}.

(** [Flush]: the current member must be complete. *)
Definition Flush (tw : Writer) : option error :=
  if 0 <? nb tw then
    Some ("archive/tar: missed writing " +:+ pretty (nb tw) +:+ " bytes")
  else None.

(** [WriteHeader] flushes first ("If the current file is not fully
    written, then this returns an error"), then starts a member that
    accepts [hdr.Size] bytes.  Headers the tar formats cannot encode and
    failures of the underlying stream are outside this model. *)
Definition WriteHeader (tw : Writer) (hdr : Header) : Writer * option error :=
  match Flush tw with
  | Some err => (tw, Some err)
  | None =>
      ({| entries := entries tw ++ [{| eHeader := hdr; eData := [] |}];
          nb := hSize hdr; trailer := trailer tw |}, None)
  end.

Definition append_data (es : list Entry) (bs : list Byte.byte) : list Entry :=
  match reverse es with
  | [] => []
  | e :: before =>
      reverse before ++ [{| eHeader := eHeader e; eData := eData e ++ bs |}]
  end.

(** [Write]: at most [nb] bytes are taken; offering more returns
    [ErrWriteTooLong] after the member has been filled. *)
Definition Write (tw : Writer) (b : list Byte.byte) : Writer * (Z * option error) :=
  let overwrite := nb tw <? Z.of_nat (length b) in
  let b' := if overwrite then take (Z.to_nat (nb tw)) b else b in
  let n := Z.of_nat (length b') in
  ({| entries := append_data (entries tw) b'; nb := nb tw - n;
      trailer := trailer tw |},
   (n, if overwrite then Some "archive/tar: write too long" else None)).

(** [Close]: flush, then the trailer ("If the current file (from a prior
    call to WriteHeader) is not fully written, then this returns an
    error"). *)
Definition Close (tw : Writer) : Writer * option error :=
  match Flush tw with
  | Some err => (tw, Some err)
  | None => ({| entries := entries tw; nb := nb tw; trailer := true |}, None)
  end.

(** An archive is whole when every member has as many content bytes as
    its header announces and the trailer is there. *)
Definition entry_complete (e : Entry) : bool :=
  bool_decide (Z.of_nat (length (eData e)) = hSize (eHeader e)).

Definition well_formed (tw : Writer) : bool :=
  forallb entry_complete (entries tw) && trailer tw.

End tar.

(** What the program sees of its surroundings.  [os_Stat] and [os_Open]
    are separate observations of a path: the size reported by the one
    and the bytes delivered by the other need not agree when the file
    changes in between. *)
Record Env : Type := mkEnv {
  (** [os.Stat(name)] *)
  os_Stat : string → tar.FileInfo + error;
  (** [os.Open(name)] and what reading the file to its end delivers:
      the bytes, and the read error that ended the stream, if any. *)
  os_Open : string → (list Byte.byte * option error) + error;
  (** [os.Create(name)] *)
  os_Create : string → option error;
  (** [filepath.Glob(pattern)] *)
  filepath_Glob : string → list string + error;
  (** [strconv.Quote], the [%q] verb *)
  strconv_Quote : string → string;
}.

(** ** Package [archive]: the Tar module *)

Module archive.

(** Modelled from the spec: the [Compression] type is declared in a file
    of the package that is not part of the sources at hand.  The spec
    gives it two capabilities, [fileExtension() -> string] and
    [wrap(stream)]; wrapping does not change which tar members reach
    the output, so a strategy is kept by its extension. *)
Record Compression : Type := mkCompression {
  Extension : string;
}.

Definition CompressNONE : Compression := {| Extension := "" |}.

Record Tar : Type := mkTar {
  Builds : list string;
  CommonDir : string;
  Compression_ : Compression;
  Files : list string;
  Name : string;
  Output : string;
  Skip : list string;
}.

Definition NewTar : Tar :=
  {| Builds := ["default"];
     CommonDir := "{{.ProjectName}}-{{.Version}}-{{.OS}}-{{.Arch}}";
     Compression_ := CompressNONE;
     Files := ["README*"];
     Name := "archive";
     Output := "{{.ProjectName}}-{{.Version}}-{{.OS}}-{{.Arch}}.tar{{.Ext}}";
     Skip := [] |}.

(** [modules.TemplateData]: the fields the module fills in. *)
Record TemplateData : Type := mkTemplateData {
  tdArch : string;
  tdProjectName : string;
  tdOS : string;
  tdVersion : string;
  tdExt : string;
}.

(** [tarRuntime].  Its [*ctx.Context] is the context [Run] was handed;
    the functions below receive that context as an argument and return
    it when they change it. *)
Record tarRuntime : Type := mktarRuntime {
  Tar_ : Tar;
  targets : gmap string ctx.Artifacts;
}.

(** *** Grouping and validation *)

Definition skipIndex_of (skip : list string) : gmap string bool :=
  fold_left (λ (m : gmap string bool) s, <[s := true]> m) skip ∅.

(** The body of the inner loop of [newRuntime] for one artifact. *)
Definition add_artifact (skipIndex : gmap string bool)
    (builds : gmap string ctx.Artifacts) (art : ctx.Artifact)
  : gmap string ctx.Artifacts :=
  let osarch := ctx.OS art +:+ "-" +:+ ctx.Arch art in
  match skipIndex !! osarch with
  | Some _ => builds
  | None =>
      let builds :=
        match builds !! osarch with
        | Some _ => builds
        | None => <[osarch := []]> builds
        end in
      <[osarch := default [] (builds !! osarch) ++ [art]]> builds
  end.

Definition group_builds (archive : Tar) (context : ctx.Context)
  : gmap string ctx.Artifacts :=
  let skipIndex := skipIndex_of (Skip archive) in
  fold_left
    (λ builds build,
       fold_left (add_artifact skipIndex)
         (ctx.ByName (ctx.Artifacts_ context) build) builds)
    (Builds archive) ∅.

Definition plural (goodTargets : list string) : string :=
  if bool_decide (length goodTargets = 1%nat) then "" else "s".

Definition errNumTargets (bad good : string)
    (builds : gmap string ctx.Artifacts) : error :=
  if bool_decide (size builds = 0%nat) then "no builds found"
  else
    match builds !! good with
    | None | Some [] => "invalid reference to good artifacts: " +:+ good
    | Some goodArts =>
        let targets : gmap string bool :=
          fold_left (λ (t : gmap string bool) art, <[ctx.OsArch art := true]> t)
            goodArts ∅ in
        let targets :=
          match builds !! bad with
          | Some badArts =>
              fold_left (λ (t : gmap string bool) art, <[ctx.OsArch art := false]> t)
                badArts targets
          | None => targets
          end in
        let goodTargets :=
          gostd.sort_Strings
            ((filter (λ kv, kv.2 = true) (map_to_list targets)).*1) in
        let badTargets :=
          gostd.sort_Strings
            ((filter (λ kv, kv.2 = false) (map_to_list targets)).*1) in
        if bool_decide (length badTargets = 0%nat) then
          "no targets found for build" +:+ plural goodTargets +:+ " "
            +:+ gostd.Join goodTargets ", "
        else
          "build " +:+ bad +:+ " is missing os-arch target"
            +:+ plural goodTargets +:+ " " +:+ gostd.Join goodTargets ", "
    end.

(** The validation loop of [newRuntime], ranging over the keys of
    [builds] in the order [order]. *)
Fixpoint check_counts (builds : gmap string ctx.Artifacts)
    (order : list string) (numTargets : Z) (lastosarch : string)
  : outcome unit :=
  match order with
  | [] => Ok ()
  | osarch :: rest =>
      match builds !! osarch with
      | None => Panics "nil pointer dereference"
      | Some arts =>
          let targets := Z.of_nat (length arts) in
          if numTargets =? 0 then check_counts builds rest targets osarch
          else if numTargets <? targets then
            Err (errNumTargets lastosarch osarch builds)
          else if targets <? numTargets then
            Err (errNumTargets osarch lastosarch builds)
          else check_counts builds rest numTargets lastosarch
      end
  end.

(** A legitimate order for ranging over a Go map: each key once. *)
Definition range_order {A : Type} (m : gmap string A) (order : list string) : Prop :=
  order ≡ₚ (map_to_list m).*1.

Definition newRuntime (archive : Tar) (context : ctx.Context)
    (order : list string) : outcome tarRuntime :=
  let builds := group_builds archive context in
  match check_counts builds order 0 "" with
  | Ok _ => Ok {| Tar_ := archive; targets := builds |}
  | Err e => Err e
  | Panics w => Panics w
  | Loops => Loops
  end.

(** *** One target *)

Record singleTarget : Type := mksingleTarget {
  tArch : string;
  tCommonDir : string;
  tCompression : Compression;
  tDirsWritten : gmap string bool;
  tFiles : list string;
  tName : string;
  tOS : string;
  tOutput : string;
  tTargets : ctx.Artifacts;
}.

Definition with_DirsWritten (t : singleTarget) (d : gmap string bool)
  : singleTarget :=
  {| tArch := tArch t; tCommonDir := tCommonDir t;
     tCompression := tCompression t; tDirsWritten := d; tFiles := tFiles t;
     tName := tName t; tOS := tOS t; tOutput := tOutput t;
     tTargets := tTargets t |}.

(** A file created by the module: the compression it was wrapped in and
    the tar writer as the deferred [Close] calls left it. *)
Record ArchiveFile : Type := mkArchiveFile {
  afCompression : Compression;
  afTar : tar.Writer;
}.

(** The files created so far, oldest first. *)
Definition Disk : Type := list (string * ArchiveFile).

Section Engine.

Variable env : Env.

(** Modelled from the spec: [modules.TemplateData.Parse] is not part of
    the sources at hand; the spec gives the template engine as
    [render(name, templateString, data) -> (string, error)]. *)
Variable Parse : TemplateData → string → string → string + error.

(** The guard of [singleTarget]: the key is absent or its group has
    length 0. *)
Definition empty_target (rt : tarRuntime) (osarch : string) : bool :=
  match targets rt !! osarch with
  | None => true
  | Some artifacts => bool_decide (length artifacts = 0%nat)
  end.

(** [tarRuntime.singleTarget] ([singleTarget] itself names the struct). *)
Definition newSingleTarget (rt : tarRuntime) (context : ctx.Context)
    (osarch : string) : outcome singleTarget :=
  if empty_target rt osarch then Err ("empty target for os-arch " +:+ osarch)
  else
    match targets rt !! osarch with
    | None | Some [] => Panics "index out of range"
    | Some ((first :: _) as artifacts) =>
        let td :=
          {| tdArch := ctx.Arch first;
             tdProjectName := ctx.ProjectName context;
             tdOS := ctx.OS first;
             tdVersion := ctx.Version context;
             tdExt := Extension (Compression_ (Tar_ rt)) |} in
        let name task :=
          "archivetar-" +:+ Name (Tar_ rt) +:+ "-" +:+ ctx.OS first +:+ "-"
            +:+ ctx.Arch first +:+ "-" +:+ task in
        let commondir := CommonDir (Tar_ rt) in
        match Parse td (name "commondir") commondir with
        | inr err =>
            Err ("rendering " +:+ strconv_Quote env commondir +:+ ": " +:+ err)
        | inl CommonDir' =>
            let output :=
              gostd.path_Join [ctx.TargetDir context; Output (Tar_ rt)] in
            match Parse td (name "output") output with
            | inr err =>
                Err ("rendering " +:+ strconv_Quote env output +:+ ": " +:+ err)
            | inl Output' =>
                Ok {| tArch := ctx.Arch first;
                      tCommonDir := CommonDir';
                      tCompression := Compression_ (Tar_ rt);
                      tDirsWritten := ∅;
                      tFiles := Files (Tar_ rt);
                      tName := Name (Tar_ rt);
                      tOS := ctx.OS first;
                      tOutput := gostd.Clean Output';
                      tTargets := artifacts |}
            end
        end
    end.

(** While one archive is written, the target (for [DirsWritten]) and
    the tar writer change; [M] threads both and stops at the first
    error. *)
Definition St : Type := singleTarget * tar.Writer.
Definition M (A : Type) : Type := St → St * outcome A.

Definition ret {A : Type} (a : A) : M A := λ st, (st, Ok a).

Definition bind {A B : Type} (m : M A) (k : A → M B) : M B := λ st,
  match m st with
  | (st', Ok a) => k a st'
  | (st', Err e) => (st', Err e)
  | (st', Panics w) => (st', Panics w)
  | (st', Loops) => (st', Loops)
  end.

Notation "'do' x <- m 'in' k" := (bind m (λ x, k))
  (at level 10, x name, m at level 100, k at level 200).
Notation "'do_' m 'in' k" := (bind m (λ _, k))
  (at level 10, m at level 100, k at level 200).

Definition fail {A : Type} (e : error) : M A := λ st, (st, Err e).

(** [fmt.Errorf(prefix + "%w", err)] around a call. *)
Definition wrap {A : Type} (pre : string) (m : M A) : M A := λ st,
  match m st with
  | (st', Err e) => (st', Err (pre +:+ e))
  | r => r
  end.

Definition of_sum {A : Type} (r : A + error) : M A :=
  match r with inl a => ret a | inr e => fail e end.

Definition of_outcome {A : Type} (r : outcome A) : M A := λ st, (st, r).

Definition tw_WriteHeader (hdr : tar.Header) : M unit := λ '(t, tw),
  match tar.WriteHeader tw hdr with
  | (tw', None) => ((t, tw'), Ok ())
  | (tw', Some e) => ((t, tw'), Err e)
  end.

(** [io.CopyBuffer(tw, sourceReader, buf)]: the bytes the reader
    delivers go to the writer; the copy stops at the first write error,
    else reports the read error that ended the stream. *)
Definition CopyBuffer (src : list Byte.byte * option error)
  : M (Z * option error) := λ '(t, tw),
  match tar.Write tw src.1 with
  | (tw', (n, Some werr)) => ((t, tw'), Ok (n, Some werr))
  | (tw', (n, None)) => ((t, tw'), Ok (n, src.2))
  end.

Fixpoint forM_ {A : Type} (f : A → M unit) (l : list A) : M unit :=
  match l with
  | [] => ret ()
  | a :: rest => do_ f a in forM_ f rest
  end.

Definition writeDir (TargetDir : string) (dirname : string) : M unit := λ st,
  match tDirsWritten st.1 !! dirname with
  | Some _ => (st, Ok ())
  | None =>
      (do st_ <- of_sum (os_Stat env TargetDir) in
       do hdr <- of_outcome (tar.FileInfoHeader st_) in
       do_ tw_WriteHeader (tar.with_Name hdr (dirname +:+ "/")) in
       (λ '(t, tw),
          ((with_DirsWritten t (<[dirname := true]> (tDirsWritten t)), tw),
           Ok ()))) st
  end.

(** The ancestors collected by the first loop of [writeDirs], nearest
    first.  [None]: the loop has not reached ["."] within [fuel]
    rounds. *)
Fixpoint ancestors (fuel : nat) (fullpath : string) : option (list string) :=
  match fuel with
  | O => None
  | S fuel' =>
      let fullpath := gostd.Dir fullpath in
      if String.eqb fullpath "." then Some []
      else cons fullpath <$> ancestors fuel' fullpath
  end.

(** [writeDirs].  The budget of the first loop is one round per
    character: [path.Dir] returns a shorter path or ["."], except that
    a rooted path ends up at ["/"] and stays there, in which case the
    loop of the program does not end either. *)
Definition writeDirs (TargetDir : string) (fullpath : string) : M unit :=
  if String.eqb fullpath "." then ret ()
  else
    match ancestors (S (String.length fullpath)) fullpath with
    | None => of_outcome Loops
    | Some up =>
        let dirs := fullpath :: up in
        forM_ (λ dirname,
                 wrap ("cannot create directory " +:+ dirname +:+ ": ")
                   (writeDir TargetDir dirname))
          (reverse dirs)
    end.

Definition writeFile (destpath source : string) : M unit :=
  do fi <- wrap ("can't stat file " +:+ source +:+ ": ")
             (of_sum (os_Stat env source)) in
  do hdr <- of_outcome (tar.FileInfoHeader fi) in
  do_ tw_WriteHeader (tar.with_Name hdr destpath) in
  do sourceReader <- of_sum (os_Open env source) in
  do r <- CopyBuffer sourceReader in
  match r.2 with
  | Some err =>
      fail ("copying " +:+ source +:+ " to archive " +:+ destpath +:+ " ("
            +:+ pretty r.1 +:+ " bytes written, " +:+ pretty (tar.fiSize fi)
            +:+ " bytes reported): " +:+ err)
  | None => ret ()
  end.

Definition writeArtifact (TargetDir : string) (artifact : ctx.Artifact) : M unit := λ st,
  let filename :=
    gostd.path_Join
      [tCommonDir st.1;
       gostd.TrimPrefix (ctx.Filename artifact) (ctx.Location artifact +:+ "/")] in
  (do_ writeDirs TargetDir (gostd.Dir filename) in
   writeFile filename (ctx.Filename artifact)) st.

Definition writeFileGlob (TargetDir : string) (source : string) : M unit := λ st,
  (do matches <- of_sum (filepath_Glob env source) in
   forM_ (λ filename,
            let fullfn := gostd.path_Join [tCommonDir st.1; filename] in
            do_ writeDirs TargetDir (gostd.Dir fullfn) in
            writeFile fullfn filename)
     matches) st.

(** [singleTarget.run].  The three deferred [Close] calls run when the
    function returns, whatever it returns, and their results are
    dropped; the file on disk is the writer as [tw.Close()] left it.
    The store that receives the new artifact, [context.Artifacts] in
    the source, is the one of the target's Build Context. *)
Definition singleTarget_run (target : singleTarget) (context : ctx.Context)
    (disk : Disk) : ctx.Context * Disk * outcome unit :=
  match os_Create env (tOutput target) with
  | Some err =>
      (context, disk,
       Err ("cannot create archive file " +:+ tOutput target +:+ ": " +:+ err))
  | None =>
      let TargetDir := ctx.TargetDir context in
      let body : M unit :=
        do_ wrap ("writing " +:+ tOutput target +:+ ": ")
              (forM_ (writeArtifact TargetDir) (tTargets target)) in
        wrap ("writing " +:+ tOutput target +:+ ": ")
          (forM_ (writeFileGlob TargetDir) (tFiles target)) in
      let '((_, tw), r) := body (target, tar.NewWriter) in
      let file :=
        {| afCompression := tCompression target;
           afTar := (tar.Close tw).1 |} in
      let disk := disk ++ [(tOutput target, file)] in
      match r with
      | Ok _ =>
          let artifact :=
            {| ctx.Arch := tArch target;
               ctx.Filename := tOutput target;
               ctx.Format := ctx.FormatTar;
               ctx.Location := tOutput target;
               ctx.Name := tName target;
               ctx.OS := tOS target |} in
          (ctx.with_Artifacts context (ctx.Add (ctx.Artifacts_ context) artifact),
           disk, Ok ())
      | other => (context, disk, other)
      end
  end.

(** [tarRuntime.run], ranging over the keys of [rt.targets] in the
    order [order]. *)
Fixpoint run (rt : tarRuntime) (order : list string) (context : ctx.Context)
    (disk : Disk) : ctx.Context * Disk * outcome unit :=
  match order with
  | [] => (context, disk, Ok ())
  | osarch :: rest =>
      match newSingleTarget rt context osarch with
      | Ok target =>
          match singleTarget_run target context disk with
          | (context, disk, Ok _) => run rt rest context disk
          | other => other
          end
      | Err e => (context, disk, Err e)
      | Panics w => (context, disk, Panics w)
      | Loops => (context, disk, Loops)
      end
  end.

(** [Tar.Run]; [order1] and [order2] are the orders in which the two
    loops over the map of groups meet its keys. *)
Definition Run (archive : Tar) (order1 order2 : list string)
    (context : ctx.Context) (disk : Disk) : ctx.Context * Disk * outcome unit :=
  match newRuntime archive context order1 with
  | Ok runtime => run runtime order2 context disk
  | Err e => (context, disk, Err e)
  | Panics w => (context, disk, Panics w)
  | Loops => (context, disk, Loops)
  end.

(** The module as a [Pluggable] of the pipeline. *)
Definition Tar_Pluggable (archive : Tar) (order1 order2 : list string)
  : modules.Pluggable Disk :=
  {| modules.Run := Run archive order1 order2 |}.

End Engine.

End archive.

(** ** Concrete inputs used below *)

Module scenario.

Definition artifact (name os arch file : string) : ctx.Artifact :=
  {| ctx.Arch := arch; ctx.Filename := file; ctx.Format := ctx.FormatRaw;
     ctx.Location := "dist"; ctx.Name := name; ctx.OS := os |}.

Definition context_of (arts : ctx.Artifacts) : ctx.Context :=
  {| ctx.ProjectName := "proj"; ctx.Version := "1.0"; ctx.TargetDir := "dist";
     ctx.Publish := false; ctx.Artifacts_ := arts |}.

(** Builds [server] and [cli]: both for linux-amd64, only [server] for
    darwin-amd64. *)
Definition uneven : ctx.Context :=
  context_of
    [artifact "server" "linux" "amd64" "dist/server_linux_amd64/server";
     artifact "cli" "linux" "amd64" "dist/cli_linux_amd64/cli";
     artifact "server" "darwin" "amd64" "dist/server_darwin_amd64/server"].

(** The same with [cli] built for darwin-amd64 too. *)
Definition even : ctx.Context :=
  context_of
    (ctx.Artifacts_ uneven
       ++ [artifact "cli" "darwin" "amd64" "dist/cli_darwin_amd64/cli"]).

Definition two_builds : archive.Tar :=
  {| archive.Builds := ["server"; "cli"];
     archive.CommonDir := "pkg";
     archive.Compression_ := archive.CompressNONE;
     archive.Files := ["README*"];
     archive.Name := "archive";
     archive.Output := "out.tar";
     archive.Skip := [] |}.

(** A template engine that meets only literal text. *)
Definition literal (td : archive.TemplateData) (name source : string)
  : string + error := inl source.

(** One build output, [dist/app], which [os.Stat] reports as 10 bytes
    long and which delivers 5 bytes when read: it was cut short between
    the two calls.  Nothing matches the glob patterns. *)
Definition cut_short : Env :=
  {| os_Stat := λ p,
       if String.eqb p "dist/app" then
         inl {| tar.fiName := "app"; tar.fiSize := 10; tar.fiKind := tar.Regular |}
       else if String.eqb p "dist" then
         inl {| tar.fiName := "dist"; tar.fiSize := 4096; tar.fiKind := tar.Directory |}
       else inr "no such file or directory";
     os_Open := λ p,
       if String.eqb p "dist/app" then inl (repeat Byte.x41 5, None)
       else inr "no such file or directory";
     os_Create := λ _, None;
     filepath_Glob := λ _, inl [];
     strconv_Quote := λ s, s |}.

(** A file system in which every path other than the target directory
    is a regular file of 3 bytes that reads back whole. *)
Definition intact : Env :=
  {| os_Stat := λ p,
       if String.eqb p "dist" then
         inl {| tar.fiName := "dist"; tar.fiSize := 4096; tar.fiKind := tar.Directory |}
       else inl {| tar.fiName := p; tar.fiSize := 3; tar.fiKind := tar.Regular |};
     os_Open := λ p, inl (repeat Byte.x41 3, None);
     os_Create := λ _, None;
     filepath_Glob := λ p, if String.eqb p "README*" then inl ["README.md"] else inl [];
     strconv_Quote := λ s, s |}.

Definition one_build : ctx.Context :=
  context_of [artifact "default" "linux" "amd64" "dist/app"].

Definition flat : archive.Tar :=
  {| archive.Builds := ["default"];
     archive.CommonDir := "";
     archive.Compression_ := archive.CompressNONE;
     archive.Files := ["README*"];
     archive.Name := "archive";
     archive.Output := "out.tar";
     archive.Skip := [] |}.

(** A registry with a stage-specific and a stage-agnostic [dump], as in
    the comment on [Add], and modules that do nothing. *)
Definition nop : modules.Pluggable unit :=
  {| modules.Run := λ c w, (c, w, Ok ()) |}.

Definition fails : modules.Pluggable unit :=
  {| modules.Run := λ c w, (c, w, Err "failed") |}.

Definition registry : gmap string (modules.PluggableFactory unit) :=
  {[ "*:dump" := λ _, nop; "build:dump" := λ _, fails ]}.

Definition decode_any (n : yaml.Node) (p : modules.Pluggable unit)
  : modules.Pluggable unit + error := inl p.

Definition scalar (v : string) : yaml.Node := yaml.mkNode yaml.ScalarNode v [].

Definition entry (type : string) : yaml.Node :=
  yaml.mkNode yaml.MappingNode "" [scalar "type"; scalar type].

Definition builds_doc : yaml.Node :=
  yaml.mkNode yaml.SequenceNode "" [entry "dump"; entry "dump"].

(** The publish stage as [LoadBuildPipeline] sets it up, skipped unless
    publishing was asked for, here with one module that would fail. *)
Definition publish_stage : modules.Modules unit :=
  {| modules.Stage := "publish";
     modules.SkipFn := Some (λ c, negb (ctx.Publish c));
     modules.Modules_ := [{| modules.Type_ := "dump"; modules.Pluggable_ := fails |}];
     modules.loaded := None |}.

Definition initial : modules.State unit :=
  {| modules.context := uneven; modules.world := (); modules.log := [] |}.

(** The build stage after [dump] has been added, once with
    [once = true] and once with [once = false]. *)
Definition build_once : modules.Modules unit :=
  (modules.Add registry decode_any (modules.NewModules "build") "dump" None true).1.

Definition build_declared : modules.Modules unit :=
  (modules.Add registry decode_any (modules.NewModules "build") "dump"
     (Some (entry "dump")) false).1.

(** The default configuration with linux-amd64 excluded. *)
Definition skip_linux : archive.Tar :=
  {| archive.Builds := ["default"];
     archive.CommonDir := archive.CommonDir archive.NewTar;
     archive.Compression_ := archive.CompressNONE;
     archive.Files := ["README*"];
     archive.Name := "archive";
     archive.Output := archive.Output archive.NewTar;
     archive.Skip := ["linux-amd64"] |}.

(** A build output that [os.Stat] reports as 3 bytes long and that
    delivers 5 bytes when read: it grew between the two calls. *)
Definition grown : Env :=
  {| os_Stat := λ p,
       inl {| tar.fiName := p; tar.fiSize := 3; tar.fiKind := tar.Regular |};
     os_Open := λ p, inl (repeat Byte.x41 5, None);
     os_Create := λ _, None;
     filepath_Glob := λ _, inl [];
     strconv_Quote := λ s, s |}.

(** A template engine that fails for darwin. *)
Definition no_darwin (td : archive.TemplateData) (name source : string)
  : string + error :=
  if String.eqb (archive.tdOS td) "darwin" then inr "no template for darwin"
  else inl source.

(** A target as [singleTarget] builds it for linux-amd64. *)
Definition linux_target : archive.singleTarget :=
  archive.mksingleTarget "amd64" "pkg" archive.CompressNONE ∅ ["README*"]
    "archive" "linux" "dist/out.tar" (ctx.Artifacts_ one_build).

(** Artifacts keyed by build name: [server] for two platforms, [cli]
    for one. *)
Definition by_build : gmap string ctx.Artifacts :=
  {[ "server" := [artifact "server" "linux" "amd64" "dist/server_linux_amd64/server";
                  artifact "server" "darwin" "amd64" "dist/server_darwin_amd64/server"];
     "cli" := [artifact "cli" "linux" "amd64" "dist/cli_linux_amd64/cli"] ]}.

(** A document whose second entry is a scalar. *)
Definition broken_doc : yaml.Node :=
  yaml.mkNode yaml.SequenceNode "" ([entry "dump"] ++ scalar "dump" :: [entry "dump"]).

(** The build stage with two modules that succeed. *)
Definition build_stage : modules.Modules unit :=
  {| modules.Stage := "build";
     modules.SkipFn := None;
     modules.Modules_ := [{| modules.Type_ := "first"; modules.Pluggable_ := nop |};
                          {| modules.Type_ := "second"; modules.Pluggable_ := nop |}];
     modules.loaded := None |}.

End scenario.

(** ** Vocabulary of the statements *)

Section ContainerVocabulary.

Context {W : Type}.
Variable registry : gmap string (modules.PluggableFactory W).
Variable Decode : yaml.Node → modules.Pluggable W → modules.Pluggable W + error.

Abbreviation Add := (modules.Add registry Decode).
Abbreviation probe := (modules.probe registry).

(** [itemType] resolves to [kind] in the container [mod_]: the probing
    loop of [Add] ends on that key with a factory in hand. *)
Definition resolves_to (mod_ : modules.Modules W) (itemType kind : string) : Prop :=
  ∃ f, probe [modules.Stage mod_; "*"] itemType "" = (kind, Some f).

(** A series of [Add] calls on one container, whatever their results. *)
Definition Add_all (mod_ : modules.Modules W)
    (calls : list (string * option yaml.Node * bool)) : modules.Modules W :=
  fold_left (λ m '(itemType, node, once), (Add m itemType node once).1)
    calls mod_.

(** An entry of the configuration sequence decodes to the module [m] in
    a container of stage [stage]: it is a mapping, its [type] key gives
    [m]'s type, the type resolves to a registered factory, and decoding
    the entry onto the factory's product gives [m]'s pluggable. *)
Definition entry_decodes (stage : string) (child : yaml.Node)
    (m : modules.Module W) : Prop :=
  yaml.Kind_ child = yaml.MappingNode ∧
  modules.getType child = Ok (modules.Type_ m) ∧
  ∃ kind f,
    probe [stage; "*"] (modules.Type_ m) "" = (kind, Some f) ∧
    Decode child (f ()) = inl (modules.Pluggable_ m).

End ContainerVocabulary.

Section GroupingVocabulary.

Implicit Types (archive : archive.Tar) (context : ctx.Context).
Implicit Types (k : string).

(** The artifacts the configuration selects, in the order the loops of
    [newRuntime] meet them: build name by build name. *)
Definition selected archive context : ctx.Artifacts :=
  concat (map (ctx.ByName (ctx.Artifacts_ context)) (archive.Builds archive)).

(** The group of the key [k]: the selected artifacts of that os-arch
    pair. *)
Definition group_of archive context k : ctx.Artifacts :=
  filter (λ a, ctx.OsArch a = k) (selected archive context).

End GroupingVocabulary.

(** The log lines of a stage whose modules all ran: two per module, in
    the order of the modules. *)
Definition module_lines {W : Type} (mods : list (modules.Module W))
  : list modules.LogLine :=
  flat_map (λ m, [modules.ModuleBegin (modules.Type_ m);
                  modules.ModuleEnd (modules.Type_ m)]) mods.

(** The content of a mapping node with the given keys and values. *)
Definition mapping_content (pairs : list (yaml.Node * yaml.Node))
  : list yaml.Node :=
  flat_map (λ kv, [kv.1; kv.2]) pairs.

(** None of the keys is the scalar [type]. *)
Definition no_type_key (pairs : list (yaml.Node * yaml.Node)) : Prop :=
  Forall (λ kv, yaml.Value kv.1 ≠ "type") pairs.

(** [os.Stat] never reports a negative size. *)
Definition nonneg_sizes (env : Env) : Prop :=
  ∀ p fi, os_Stat env p = inl fi → 0 ≤ tar.fiSize fi.

(** Every member before the last one has all the bytes its header
    announces, and the writer expects exactly the bytes the last member
    still lacks. *)
Definition short_only_last (tw : tar.Writer) : Prop :=
  (tar.entries tw = [] ∧ tar.nb tw = 0)
  ∨ ∃ es e,
      tar.entries tw = es ++ [e]
      ∧ Forall (λ x, tar.entry_complete x = true) es
      ∧ tar.nb tw = tar.hSize (tar.eHeader e) - Z.of_nat (length (tar.eData e))
      ∧ 0 ≤ tar.nb tw.

(** A computation keeps [I] when the state it leaves satisfies [I]
    whenever the state it starts from does, whatever it returns. *)
Definition keeps {A : Type} (I : archive.St → Prop) (m : archive.M A) : Prop :=
  ∀ st, I st → I (m st).1.

(** The invariant of the writer while one archive is written. *)
Definition writer_ok (st : archive.St) : Prop :=
  short_only_last st.2 ∧ tar.trailer st.2 = false.

(** The settings of the Build Context, everything but the store. *)
Definition same_settings (c c' : ctx.Context) : Prop :=
  ctx.ProjectName c' = ctx.ProjectName c ∧ ctx.Version c' = ctx.Version c
  ∧ ctx.TargetDir c' = ctx.TargetDir c ∧ ctx.Publish c' = ctx.Publish c.

(** The strings stand in ascending byte-wise order. *)
Fixpoint ascending (l : list string) : bool :=
  match l with
  | x :: ((y :: _) as rest) => String.leb x y && ascending rest
  | _ => true
  end.

(** The directory [d] is marked as written in the state [st]. *)
Definition dir_written (st : archive.St) (d : string) : Prop :=
  is_Some (archive.tDirsWritten st.1 !! d).

(** Reading a regular file delivers as many bytes as [os.Stat] reports
    for it. *)
Definition sizes_agree (env : Env) : Prop :=
  ∀ p fi content rerr,
    os_Stat env p = inl fi → os_Open env p = inl (content, rerr) →
    tar.fiKind fi = tar.Regular →
    Z.of_nat (length content) = tar.fiSize fi.

(** The names in the headers of the members, in the order of the
    archive. *)
Definition member_names (es : list tar.Entry) : list string :=
  map (λ e, tar.hName (tar.eHeader e)) es.

(** Every directory marked as written has a header in the archive, under
    its name followed by a slash. *)
Definition dirs_have_headers (st : archive.St) : Prop :=
  ∀ d, dir_written st d → (d +:+ "/") ∈ member_names (tar.entries st.2).

(** * Properties *)

(** ** Sanity checks of the library models *)

Example Clean_examples :
  gostd.Clean "a//b/./c/.." = "a/b" ∧ gostd.Clean "/../a" = "/a" ∧
  gostd.Clean "../../a/.." = "../.." ∧ gostd.Clean "a/.." = "." ∧
  gostd.Clean "/" = "/" ∧ gostd.Clean "a/../../b" = "../b" ∧
  gostd.Clean "" = ".".
Proof. repeat split; reflexivity. Qed.

Example Dir_examples :
  gostd.Dir "a/b/c" = "a/b" ∧ gostd.Dir "a" = "." ∧ gostd.Dir "/a" = "/" ∧
  gostd.Dir "/" = "/" ∧ gostd.Dir "a/b/" = "a/b".
Proof. repeat split; reflexivity. Qed.

Example path_Join_examples :
  gostd.path_Join [""; "a/b"] = "a/b" ∧ gostd.path_Join ["x"; ""; "a"] = "x/a" ∧
  gostd.path_Join [""; ""] = "" ∧ gostd.path_Join ["dist"; "out.tar"] = "dist/out.tar".
Proof. repeat split; reflexivity. Qed.

Example sort_Strings_example :
  gostd.sort_Strings ["b"; "a"; "c"; "B"] = ["B"; "a"; "b"; "c"].
Proof. reflexivity. Qed.

Example TrimPrefix_example :
  gostd.TrimPrefix "dist/app" "dist/" = "app" ∧ gostd.TrimPrefix "app" "dist/" = "app".
Proof. split; reflexivity. Qed.

(** The Tar module on files that read back whole: two builds for two
    platforms, a common directory and one static file.  Each archive
    lists every directory once, before the files under it, and is
    complete. *)
Example Run_on_intact_files :
  let r := archive.Run scenario.intact scenario.literal scenario.two_builds
             ["linux-amd64"; "darwin-amd64"] ["linux-amd64"; "darwin-amd64"]
             scenario.even [] in
  r.2 = Ok ()
  ∧ map (λ f, (map (λ e, tar.hName (tar.eHeader e)) (tar.entries (archive.afTar f.2)),
               tar.well_formed (archive.afTar f.2))) r.1.2
    = [(["pkg/"; "pkg/server_linux_amd64/"; "pkg/server_linux_amd64/server";
         "pkg/cli_linux_amd64/"; "pkg/cli_linux_amd64/cli"; "pkg/README.md"],
        true);
       (["pkg/"; "pkg/server_darwin_amd64/"; "pkg/server_darwin_amd64/server";
         "pkg/cli_darwin_amd64/"; "pkg/cli_darwin_amd64/cli"; "pkg/README.md"],
        true)]
  ∧ map (λ a, (ctx.Name a, ctx.OsArch a, ctx.Format a))
      (drop 4 (ctx.Artifacts_ r.1.1))
    = [("archive", "linux-amd64", ctx.FormatTar);
       ("archive", "darwin-amd64", ctx.FormatTar)].
Proof. repeat split; by vm_compute. Qed.

(** The container assembled from a two-entry document: two modules, in
    the order of the entries. *)
Example UnmarshalYAML_on_builds_doc :
  let r := modules.UnmarshalYAML scenario.registry scenario.decode_any
             (modules.NewModules "build") scenario.builds_doc in
  r.2 = Ok () ∧ map modules.Type_ (modules.Modules_ r.1) = ["dump"; "dump"].
Proof. split; by vm_compute. Qed.

(** ** The module container *)

Section ContainerFacts.

Context {W : Type}.
Variable registry : gmap string (modules.PluggableFactory W).
Variable Decode : yaml.Node → modules.Pluggable W → modules.Pluggable W + error.

Abbreviation Add := (modules.Add registry Decode).
Abbreviation Add_resolved := (modules.Add_resolved Decode).
Abbreviation probe := (modules.probe registry).
Abbreviation resolves_to := (resolves_to registry).
Abbreviation Add_all := (Add_all registry Decode).
Abbreviation entry_decodes := (entry_decodes registry Decode).

Lemma Add_Stage mod_ itemType node once :
  modules.Stage (Add mod_ itemType node once).1 = modules.Stage mod_.
Proof.
  unfold modules.Add, modules.Add_resolved.
  destruct (probe _ _ _) as [kind [f|]]; [|done].
  destruct (once && _); [done|].
  destruct node as [n|]; [destruct (Decode n (f ()))|]; done.
Qed.

Lemma isLoaded_flagLoaded (mod_ : modules.Modules W) kind kind' :
  modules.isLoaded (modules.flagLoaded mod_ kind) kind' =
  bool_decide (kind = kind') || modules.isLoaded mod_ kind'.
Proof.
  unfold modules.isLoaded, modules.flagLoaded; simpl.
  destruct (decide (kind = kind')) as [->|Hne].
  - rewrite lookup_insert_eq, bool_decide_eq_true_2 by done.
    by rewrite bool_decide_eq_true_2 by eauto.
  - rewrite lookup_insert_ne by done.
    rewrite (bool_decide_eq_false_2 (kind = kind')) by done. simpl.
    destruct (modules.loaded mod_); [done|].
    rewrite lookup_empty. apply bool_decide_eq_false_2. by intros [? ?].
Qed.

(** What a successful [Add] leaves behind. *)
Lemma Add_success mod_ itemType node once mod' :
  Add mod_ itemType node once = (mod', None) →
  ∃ kind f targetMod,
    probe [modules.Stage mod_; "*"] itemType "" = (kind, Some f) ∧
    match node with Some n => Decode n (f ()) | None => inl (f ()) end
      = inl targetMod ∧
    mod' = modules.flagLoaded
             (modules.append_module mod_
                {| modules.Type_ := itemType; modules.Pluggable_ := targetMod |})
             kind.
Proof.
  unfold modules.Add, modules.Add_resolved.
  destruct (probe _ _ _) as [kind [f|]] eqn:Hp; [|done].
  destruct (once && _); [done|].
  intros H. exists kind, f.
  destruct (match node with Some n => _ | None => _ end) as [t|e] eqn:Hd;
    [|done].
  exists t. by simplify_eq.
Qed.

(** A failing [Add] changes nothing in the container. *)
Lemma Add_failure_unchanged mod_ itemType node once mod' err :
  Add mod_ itemType node once = (mod', Some err) → mod' = mod_.
Proof.
  unfold modules.Add, modules.Add_resolved.
  destruct (probe _ _ _) as [kind [f|]]; [|by intros [= <- _]].
  destruct (once && _); [by intros [= <- _]|].
  destruct (match node with Some n => _ | None => _ end); [done|].
  by intros [= <- _].
Qed.

(** The set of loaded kinds only grows. *)
Lemma Add_isLoaded_mono mod_ itemType node once kind :
  modules.isLoaded mod_ kind = true →
  modules.isLoaded (Add mod_ itemType node once).1 kind = true.
Proof.
  intros Hl. destruct (Add mod_ itemType node once) as [mod' [err|]] eqn:HA.
  - by apply Add_failure_unchanged in HA as ->.
  - apply Add_success in HA as (k & f & t & _ & _ & ->). simpl.
    rewrite isLoaded_flagLoaded. unfold modules.isLoaded in *. simpl.
    by rewrite Hl, orb_true_r.
Qed.

Lemma Add_once_loaded mod_ itemType node kind :
  resolves_to mod_ itemType kind →
  modules.isLoaded mod_ kind = true →
  Add mod_ itemType node true =
    (mod_, Some ("module " +:+ kind +:+ " already loaded")).
Proof.
  intros [f Hp] Hl. unfold modules.Add, modules.Add_resolved.
  by rewrite Hp, Hl.
Qed.

Lemma Add_all_Stage calls : ∀ mod_,
  modules.Stage (Add_all mod_ calls) = modules.Stage mod_.
Proof.
  induction calls as [|[[t n] o] calls IH]; intros mod_; [done|].
  unfold Add_all in *. simpl. by rewrite IH, Add_Stage.
Qed.

Lemma Add_all_isLoaded_mono calls kind : ∀ mod_,
  modules.isLoaded mod_ kind = true →
  modules.isLoaded (Add_all mod_ calls) kind = true.
Proof.
  induction calls as [|[[t n] o] calls IH]; intros mod_ Hl; [done|].
  unfold Add_all in *. simpl. by apply IH, Add_isLoaded_mono.
Qed.

(** C5.  [Add] looks the type up under ["<stage>:<type>"] first and
    under ["*:<type>"] second: a registration for the container's own
    stage wins over the wildcard one, the wildcard one is used when it
    is the only one, and with neither [Add] fails with the error
    ["unknown module <stage>:<type>"], which names both the stage and
    the type, leaving the container as it was. *)
Theorem Add_probes_stage_then_wildcard
    (mod_ : modules.Modules W) (itemType : string)
    (node : option yaml.Node) (once : bool) :
  Add mod_ itemType node once =
    match registry !! (modules.Stage mod_ +:+ ":" +:+ itemType) with
    | Some f =>
        Add_resolved mod_ itemType node once
          (modules.Stage mod_ +:+ ":" +:+ itemType) f
    | None =>
        match registry !! ("*:" +:+ itemType) with
        | Some f => Add_resolved mod_ itemType node once ("*:" +:+ itemType) f
        | None =>
            (mod_, Some ("unknown module " +:+ modules.Stage mod_ +:+ ":"
                         +:+ itemType))
        end
    end.
Proof.
  unfold modules.Add. simpl. unfold modules.LookupModule.
  destruct (registry !! (modules.Stage mod_ +:+ ":" +:+ itemType)); [done|].
  change ("*" +:+ ":" +:+ itemType) with ("*:" +:+ itemType).
  by destruct (registry !! ("*:" +:+ itemType)).
Qed.

(** C6.  Once a call of [Add] with [once = true] has succeeded, every
    further call with [once = true] whose type resolves to the same kind
    fails with ["module <kind> already loaded"] and leaves the
    container as it is.  With [once = false] the error [Add] returns
    does not depend on what has been loaded or added before: it is the
    same for any two containers of the same stage, so a repetition
    alone never makes it fail. *)
Theorem Add_once_twice_fails
    (mod_ mod1 : modules.Modules W) (itemType kind : string)
    (node : option yaml.Node)
    (Hfirst : Add mod_ itemType node true = (mod1, None))
    (Hkind : resolves_to mod_ itemType kind) :
  (∀ itemType' node',
     resolves_to mod1 itemType' kind →
     Add mod1 itemType' node' true =
       (mod1, Some ("module " +:+ kind +:+ " already loaded")))
  ∧ (∀ (m m' : modules.Modules W) itemType' node',
       modules.Stage m = modules.Stage m' →
       (Add m itemType' node' false).2 = (Add m' itemType' node' false).2).
Proof.
  split.
  - intros itemType' node' Hres. apply Add_once_loaded; [done|].
    apply Add_success in Hfirst as (k & f & t & Hp & _ & ->).
    destruct Hkind as [f' Hp']. rewrite Hp in Hp'. simplify_eq.
    rewrite isLoaded_flagLoaded. by rewrite bool_decide_eq_true_2.
  - intros m m' itemType' node' HS.
    unfold modules.Add, modules.Add_resolved. rewrite HS.
    destruct (probe _ _ _) as [k [f|]]; [|done]. simpl.
    by destruct (match node' with Some n => _ | None => _ end).
Qed.

(** C9.  A successful [Add] marks the kind it resolved as loaded,
    whatever its [once] flag.  So after an entry resolving to [kind] has
    been added, and after any further calls of [Add] on the container,
    a call with [once = true] that resolves to [kind] (what injecting a
    default module amounts to) fails with ["module <kind> already
    loaded"] and leaves the container, its list of modules included,
    as it is. *)
Theorem Add_marks_kind_loaded
    (mod_ mod1 : modules.Modules W) (itemType kind : string)
    (node : option yaml.Node) (once : bool)
    (Hadd : Add mod_ itemType node once = (mod1, None))
    (Hkind : resolves_to mod_ itemType kind) :
  modules.isLoaded mod1 kind = true
  ∧ ∀ calls itemType' node',
      resolves_to (Add_all mod1 calls) itemType' kind →
      Add (Add_all mod1 calls) itemType' node' true =
        (Add_all mod1 calls, Some ("module " +:+ kind +:+ " already loaded")).
Proof.
  assert (modules.isLoaded mod1 kind = true) as Hl.
  { apply Add_success in Hadd as (k & f & t & Hp & _ & ->).
    destruct Hkind as [f' Hp']. rewrite Hp in Hp'. simplify_eq.
    rewrite isLoaded_flagLoaded. by rewrite bool_decide_eq_true_2. }
  split; [done|]. intros calls itemType' node' Hres.
  apply Add_once_loaded; [done|]. by apply Add_all_isLoaded_mono.
Qed.

Lemma UnmarshalYAML_from_inv children : ∀ mod_ idx mod',
  modules.UnmarshalYAML_from registry Decode mod_ idx children = (mod', Ok ()) →
  ∃ ms, modules.Modules_ mod' = modules.Modules_ mod_ ++ ms ∧
        Forall2 (entry_decodes (modules.Stage mod_)) children ms.
Proof.
  induction children as [|child rest IH]; intros mod_ idx mod' H; simpl in H.
  - exists []. simplify_eq. by rewrite app_nil_r.
  - case_bool_decide as Hk; simpl in H; [|done].
    destruct (modules.getType child) as [itemType| | |] eqn:Ht; try done.
    destruct (Add mod_ itemType (Some child) false) as [mod1 [err|]] eqn:HA;
      [done|].
    pose proof (Add_Stage mod_ itemType (Some child) false) as HS.
    rewrite HA in HS. simpl in HS.
    apply Add_success in HA as (kind & f & t & Hp & Hd & ->).
    apply IH in H as (ms & Hms & Hall). simpl in Hms.
    exists ({| modules.Type_ := itemType; modules.Pluggable_ := t |} :: ms).
    split; [by rewrite Hms, <- app_assoc|].
    constructor; [|by rewrite <- HS].
    repeat split; [done..|]. by exists kind, f.
Qed.

Lemma UnmarshalYAML_from_spec children : ∀ mod_ idx ms,
  Forall2 (entry_decodes (modules.Stage mod_)) children ms →
  ∃ mod',
    modules.UnmarshalYAML_from registry Decode mod_ idx children = (mod', Ok ()) ∧
    modules.Modules_ mod' = modules.Modules_ mod_ ++ ms.
Proof.
  induction children as [|child rest IH]; intros mod_ idx ms Hall.
  - apply Forall2_nil_inv_l in Hall as ->. exists mod_.
    by rewrite app_nil_r.
  - apply Forall2_cons_inv_l in Hall
      as (m & ms' & (Hk & Ht & kind & f & Hp & Hd) & Hall & ->).
    simpl. rewrite bool_decide_eq_true_2 by done. simpl. rewrite Ht.
    unfold modules.Add, modules.Add_resolved. rewrite Hp. simpl. rewrite Hd.
    edestruct (IH (modules.flagLoaded (modules.append_module mod_
                 {| modules.Type_ := modules.Type_ m;
                    modules.Pluggable_ := modules.Pluggable_ m |}) kind)
                 (S idx) ms') as (mod' & -> & Hms); [done|].
    exists mod'. split; [done|]. rewrite Hms. simpl.
    rewrite <- app_assoc. by destruct m.
Qed.

(** C7.  When [UnmarshalYAML] succeeds on a fresh container, the
    container holds one module per entry of the sequence, in the order
    of the entries: the i-th module is what the i-th entry decodes to,
    and there are exactly as many modules as entries.  Conversely a
    sequence whose entries all decode is accepted, with exactly those
    modules. *)
Theorem UnmarshalYAML_one_module_per_entry (stage : string) (node : yaml.Node) :
  (∀ mod',
     modules.UnmarshalYAML registry Decode (modules.NewModules stage) node
       = (mod', Ok ()) →
     Forall2 (entry_decodes stage) (yaml.Content node) (modules.Modules_ mod')
     ∧ length (modules.Modules_ mod') = length (yaml.Content node)
     ∧ map modules.getType (yaml.Content node)
         = map (λ m, Ok (modules.Type_ m)) (modules.Modules_ mod'))
  ∧ (∀ ms,
       yaml.Kind_ node = yaml.SequenceNode →
       Forall2 (entry_decodes stage) (yaml.Content node) ms →
       ∃ mod',
         modules.UnmarshalYAML registry Decode (modules.NewModules stage) node
           = (mod', Ok ())
         ∧ modules.Modules_ mod' = ms).
Proof.
  split.
  - intros mod' H. unfold modules.UnmarshalYAML in H.
    case_bool_decide; simpl in H; [|done].
    apply UnmarshalYAML_from_inv in H as (ms & Hms & Hall).
    simpl in Hms, Hall. rewrite Hms. split; [done|]. split.
    + symmetry. by eapply Forall2_length.
    + clear Hms. induction Hall as [|c m cs ms' (_ & Ht & _) _ IH]; [done|].
      simpl. by rewrite Ht, IH.
  - intros ms Hk Hall. unfold modules.UnmarshalYAML.
    rewrite bool_decide_eq_true_2 by done. simpl.
    by apply (UnmarshalYAML_from_spec _ (modules.NewModules stage) 0%nat ms).
Qed.

(** C8.  A stage whose skip predicate holds of the current Build Context
    runs none of its modules: the Build Context and the rest of the
    world come back as they went in, no error is returned, and the log
    gains the opening line, the skip notice and the closing line, with
    no module line in between. *)
Theorem Run_skipped_stage_is_inert
    (mod_ : modules.Modules W) (st : modules.State W)
    (skip : ctx.Context → bool)
    (Hfn : modules.SkipFn mod_ = Some skip)
    (Hskip : skip (modules.context st) = true) :
  modules.Run_ mod_ st =
    ({| modules.context := modules.context st;
        modules.world := modules.world st;
        modules.log :=
          modules.log st
            ++ [modules.StageBegin (modules.Stage mod_); modules.StageSkipped;
                modules.StageEnd (modules.Stage mod_)] |},
     Ok ()).
Proof.
  unfold modules.Run_, modules.logf. simpl. rewrite Hfn, Hskip.
  by rewrite <- !app_assoc.
Qed.

End ContainerFacts.

(** ** The artifact store and the stage loop *)

(** X5.  [ByName] returns the artifacts of that name and no others, in
    the order in which the store holds them. *)
Theorem ByName_stable_subsequence (arts : ctx.Artifacts) (name : string) :
  ctx.ByName arts name `sublist_of` arts
  ∧ ∀ a, a ∈ ctx.ByName arts name ↔ a ∈ arts ∧ ctx.Name a = name.
Proof.
  unfold ctx.ByName. split; [apply sublist_filter|].
  intros a. rewrite list_elem_of_filter. tauto.
Qed.

(** X6.  The first module whose [Run] returns an error ends the stage:
    the modules after it are not run, and the error comes back wrapped
    as ["<stage>:<type>: <cause>"]. *)
Theorem run_stops_at_first_failure {W : Type} (stage : string)
    (before after : list (modules.Module W)) (m : modules.Module W)
    (st st1 : modules.State W) (c : ctx.Context) (w : W) (err : error)
    (Hbefore : modules.run_from stage before st = (st1, Ok ()))
    (Hfail : modules.Run (modules.Pluggable_ m)
               (modules.context st1) (modules.world st1) = (c, w, Err err)) :
  modules.run_from stage (before ++ m :: after) st
  = ({| modules.context := c; modules.world := w;
        modules.log := modules.log st1 ++ [modules.ModuleBegin (modules.Type_ m)] |},
     Err (stage +:+ ":" +:+ modules.Type_ m +:+ ": " +:+ err)).
Proof.
  revert st Hbefore. induction before as [|m0 before IH]; intros st Hbefore.
  - simpl in *. simplify_eq. by rewrite Hfail.
  - simpl in *.
    destruct (modules.Run (modules.Pluggable_ m0) _ _) as [[c0 w0] [[]|e| |]];
      try done.
    by apply IH.
Qed.

(** ** Grouping and validation in the Tar module *)

Section GroupingFacts.

Implicit Types (archive : archive.Tar) (context : ctx.Context).
Implicit Types (builds : gmap string ctx.Artifacts) (k osarch : string).

Lemma skipIndex_of_lookup_from skip : ∀ (m : gmap string bool) k,
  fold_left (λ (m : gmap string bool) s, <[s := true]> m) skip m !! k
  = if decide (k ∈ skip) then Some true else m !! k.
Proof.
  induction skip as [|s skip IH]; intros m k.
  - destruct (decide (k ∈ [])) as [Hin|_]; [|done].
    by apply not_elem_of_nil in Hin.
  - cbn [fold_left]. rewrite IH.
    destruct (decide (k ∈ skip)) as [Hin|Hn].
    + by rewrite decide_True by (by right).
    + destruct (decide (s = k)) as [->|Hne].
      * rewrite lookup_insert_eq. by rewrite decide_True by left.
      * rewrite lookup_insert_ne by done.
        rewrite decide_False; [done|].
        intros [?|?]%elem_of_cons; congruence.
Qed.

Lemma skipIndex_of_lookup skip k :
  archive.skipIndex_of skip !! k = if decide (k ∈ skip) then Some true else None.
Proof. unfold archive.skipIndex_of. by rewrite skipIndex_of_lookup_from. Qed.

Lemma add_artifact_lookup (sk : gmap string bool) builds art k :
  archive.add_artifact sk builds art !! k =
    match sk !! ctx.OsArch art with
    | Some _ => builds !! k
    | None =>
        if decide (ctx.OsArch art = k)
        then Some (default [] (builds !! k) ++ [art])
        else builds !! k
    end.
Proof.
  unfold archive.add_artifact.
  change (ctx.OS art +:+ "-" +:+ ctx.Arch art) with (ctx.OsArch art).
  destruct (sk !! ctx.OsArch art); [done|].
  destruct (decide (ctx.OsArch art = k)) as [<-|Hne].
  - rewrite lookup_insert_eq.
    destruct (builds !! ctx.OsArch art) eqn:E; simpl.
    + by rewrite E.
    + by rewrite lookup_insert_eq.
  - rewrite lookup_insert_ne by done.
    destruct (builds !! ctx.OsArch art); [done|].
    by rewrite lookup_insert_ne.
Qed.

Lemma add_artifacts_lookup (sk : gmap string bool) (l : ctx.Artifacts) :
  ∀ builds k,
    fold_left (archive.add_artifact sk) l builds !! k =
      match sk !! k with
      | Some _ => builds !! k
      | None =>
          match filter (λ a, ctx.OsArch a = k) l with
          | [] => builds !! k
          | g => Some (default [] (builds !! k) ++ g)
          end
      end.
Proof.
  induction l as [|art l IH]; intros builds k; simpl.
  - by destruct (sk !! k).
  - rewrite IH, add_artifact_lookup, filter_cons.
    destruct (sk !! k) eqn:Hk.
    + destruct (sk !! ctx.OsArch art) eqn:Ha; [done|].
      rewrite decide_False; [done|]. intros E. rewrite E in Ha. congruence.
    + destruct (decide (ctx.OsArch art = k)) as [E|Hne].
      * rewrite E, Hk. simpl.
        destruct (filter _ l) as [|a' g]; [done|].
        by rewrite <- app_assoc.
      * by destruct (sk !! ctx.OsArch art).
Qed.

Lemma fold_left_concat {A B : Type} (f : B → A → B) (g : string → list A)
    (l : list string) : ∀ b,
  fold_left (λ b x, fold_left f (g x) b) l b = fold_left f (concat (map g l)) b.
Proof.
  induction l as [|x l IH]; intros b; simpl; [done|].
  by rewrite fold_left_app, IH.
Qed.

(** The groups [newRuntime] builds: a key in [Skip] has none; any other
    key has the selected artifacts of that os-arch pair, and no group
    at all when there are none. *)
Lemma group_builds_lookup archive context k :
  archive.group_builds archive context !! k =
    if decide (k ∈ archive.Skip archive) then None
    else match group_of archive context k with
         | [] => None
         | g => Some g
         end.
Proof.
  unfold archive.group_builds, group_of, selected.
  rewrite (fold_left_concat _ (ctx.ByName (ctx.Artifacts_ context))).
  rewrite add_artifacts_lookup, skipIndex_of_lookup, lookup_empty.
  destruct (decide (k ∈ archive.Skip archive)); [done|].
  by destruct (filter _ _).
Qed.

Lemma group_builds_nonempty archive context k g :
  archive.group_builds archive context !! k = Some g → g ≠ [].
Proof.
  rewrite group_builds_lookup. destruct (decide _); [done|].
  destruct (group_of archive context k); [done|]. by intros [= <-].
Qed.

Lemma group_builds_OsArch archive context k g :
  archive.group_builds archive context !! k = Some g →
  Forall (λ a, ctx.OsArch a = k) g.
Proof.
  rewrite group_builds_lookup. destruct (decide _); [done|].
  destruct (group_of archive context k) eqn:E; [done|]. intros [= <-].
  rewrite <- E. apply Forall_forall. unfold group_of.
  by intros x [? _]%list_elem_of_filter.
Qed.

(** The validation loop once a first group has set [numTargets]: it
    either accepts, and every remaining group has that many artifacts,
    or it returns an error, and some remaining group has another
    number. *)
Lemma check_counts_spec builds (order : list string) :
  (∀ k g, builds !! k = Some g → g ≠ []) →
  (∀ k, k ∈ order → is_Some (builds !! k)) →
  ∀ n last, 0 < n →
    (archive.check_counts builds order n last = Ok () ∧
     ∀ k g, k ∈ order → builds !! k = Some g → Z.of_nat (length g) = n)
    ∨ (is_Err (archive.check_counts builds order n last) = true ∧
       ∃ k g, k ∈ order ∧ builds !! k = Some g ∧ Z.of_nat (length g) ≠ n).
Proof.
  intros Hne. induction order as [|k order IH]; intros Hin n last Hn.
  - left. split; [done|]. by intros ? ? ?%not_elem_of_nil.
  - destruct (Hin k) as [g Hg]; [by left|].
    simpl. rewrite Hg.
    destruct (n =? 0) eqn:E0; [lia|].
    destruct (n <? Z.of_nat (length g)) eqn:E1.
    { right. split; [done|]. exists k, g. split; [by left|]. split; [done|]. lia. }
    destruct (Z.of_nat (length g) <? n) eqn:E2.
    { right. split; [done|]. exists k, g. split; [by left|]. split; [done|]. lia. }
    destruct (IH (λ k' Hk', Hin k' (list_elem_of_further _ _ _ Hk')) n last Hn)
      as [[HOk Hall]|[HErr (k' & g' & Hk' & Hg' & Hlen)]].
    + left. split; [done|]. intros k' g' [->|Hk']%elem_of_cons Hg'.
      * simplify_eq. lia.
      * by eapply Hall.
    + right. split; [done|]. exists k', g'. split; [by right|]. done.
Qed.

(** The whole loop, from [numTargets = 0]. *)
Lemma check_counts_start builds (order : list string) :
  (∀ k g, builds !! k = Some g → g ≠ []) →
  (∀ k, k ∈ order → is_Some (builds !! k)) →
  (archive.check_counts builds order 0 "" = Ok () ∧
   ∀ k1 k2 g1 g2, k1 ∈ order → k2 ∈ order →
     builds !! k1 = Some g1 → builds !! k2 = Some g2 → length g1 = length g2)
  ∨ (is_Err (archive.check_counts builds order 0 "") = true ∧
     ∃ k1 k2 g1 g2, k1 ∈ order ∧ k2 ∈ order ∧
       builds !! k1 = Some g1 ∧ builds !! k2 = Some g2 ∧ length g1 ≠ length g2).
Proof.
  intros Hne Hin. destruct order as [|k order].
  - left. split; [done|]. by intros ? ? ? ? ?%not_elem_of_nil.
  - destruct (Hin k) as [g Hg]; [by left|]. simpl. rewrite Hg. simpl.
    assert (0 < Z.of_nat (length g)) as Hpos.
    { specialize (Hne k g Hg). destruct g; [done|]. simpl. lia. }
    destruct (check_counts_spec builds order Hne
                (λ k' Hk', Hin k' (list_elem_of_further _ _ _ Hk'))
                (Z.of_nat (length g)) k Hpos)
      as [[HOk Hall]|[HErr (k' & g' & Hk' & Hg' & Hlen)]].
    + left. split; [done|].
      assert (∀ k' g', k' ∈ k :: order → builds !! k' = Some g' →
                length g' = length g) as Hall'.
      { intros k' g' [->|Hk']%elem_of_cons Hg'; [by simplify_eq|].
        apply Nat2Z.inj. by eapply Hall. }
      intros k1 k2 g1 g2 H1 H2 Hg1 Hg2.
      by rewrite (Hall' k1 g1), (Hall' k2 g2).
    + right. split; [done|]. exists k, k', g, g'.
      split; [by left|]. split; [by right|]. repeat split; [done..|]. lia.
Qed.

Lemma range_order_elem_of {A : Type} (m : gmap string A) (order : list string) k :
  archive.range_order m order → k ∈ order ↔ is_Some (m !! k).
Proof.
  unfold archive.range_order. intros ->.
  rewrite list_elem_of_fmap. split.
  - intros [[k' v] [-> Hin%elem_of_map_to_list]]. by exists v.
  - intros [v Hv]. exists (k, v). split; [done|].
    by apply elem_of_map_to_list.
Qed.

(** *** The text of the validation error *)

Lemma fold_insert_same (v : bool) k (l : ctx.Artifacts) :
  l ≠ [] → Forall (λ a, ctx.OsArch a = k) l →
  ∀ t : gmap string bool,
    fold_left (λ (t : gmap string bool) art, <[ctx.OsArch art := v]> t) l t
    = <[k := v]> t.
Proof.
  induction l as [|a l IH]; [done|]. intros _ Hall t.
  apply Forall_cons in Hall as [Ha Hall]. simpl. rewrite Ha.
  destruct l as [|a' l]; [done|].
  rewrite IH by done. apply insert_insert_eq.
Qed.

(** Handed two different keys of the map of groups, [errNumTargets]
    puts the first where the format string says "build" and the second
    where it says "os-arch target". *)
Lemma errNumTargets_on_groups builds bad good (gb gg : ctx.Artifacts) :
  builds !! bad = Some gb → builds !! good = Some gg →
  gb ≠ [] → gg ≠ [] →
  Forall (λ a, ctx.OsArch a = bad) gb → Forall (λ a, ctx.OsArch a = good) gg →
  bad ≠ good →
  archive.errNumTargets bad good builds
  = "build " +:+ bad +:+ " is missing os-arch target " +:+ good.
Proof.
  intros Hb Hg Hbne Hgne Hball Hgall Hne. unfold archive.errNumTargets.
  rewrite bool_decide_eq_false_2.
  2:{ intros ->%map_size_empty_inv. by rewrite lookup_empty in Hg. }
  rewrite Hg, Hb. destruct gg as [|g0 gg]; [done|].
  rewrite (fold_insert_same true good) by done.
  rewrite (fold_insert_same false bad) by done.
  assert (map_to_list (<[bad:=false]> (<[good:=true]> (∅ : gmap string bool)))
          ≡ₚ [(bad, false); (good, true)]) as HL.
  { rewrite map_to_list_insert by (by rewrite lookup_insert_ne, lookup_empty).
    rewrite map_to_list_insert by apply lookup_empty.
    by rewrite map_to_list_empty. }
  assert ((filter (λ kv : string * bool, kv.2 = true)
             (map_to_list (<[bad:=false]> (<[good:=true]> (∅ : gmap string bool))))).*1
          = [good]) as ->.
  { apply Permutation_singleton_r. by rewrite HL. }
  assert ((filter (λ kv : string * bool, kv.2 = false)
             (map_to_list (<[bad:=false]> (<[good:=true]> (∅ : gmap string bool))))).*1
          = [bad]) as ->.
  { apply Permutation_singleton_r. by rewrite HL. }
  done.
Qed.

(** An error of the validation loop comes from a smaller group [bad]
    and a larger group [good]. *)
Lemma check_counts_error builds (order : list string) :
  (∀ k, k ∈ order → is_Some (builds !! k)) →
  ∀ n last glast e,
    builds !! last = Some glast → Z.of_nat (length glast) = n → 0 < n →
    archive.check_counts builds order n last = Err e →
    ∃ bad good gb gg,
      builds !! bad = Some gb ∧ builds !! good = Some gg ∧
      (length gb < length gg)%nat ∧
      e = archive.errNumTargets bad good builds.
Proof.
  induction order as [|k order IH]; intros Hin n last glast e Hl Hlen Hn H;
    [done|].
  destruct (Hin k) as [g Hg]; [by left|].
  simpl in H. rewrite Hg in H.
  destruct (n =? 0) eqn:E0; [lia|].
  destruct (n <? Z.of_nat (length g)) eqn:E1.
  { exists last, k, glast, g. apply Z.ltb_lt in E1. simplify_eq.
    split; [done|]. split; [done|]. split; [lia|done]. }
  destruct (Z.of_nat (length g) <? n) eqn:E2.
  { exists k, last, g, glast. apply Z.ltb_lt in E2. simplify_eq.
    split; [done|]. split; [done|]. split; [lia|done]. }
  exact (IH (λ k' Hk', Hin k' (list_elem_of_further _ _ _ Hk'))
            n last glast e Hl Hlen Hn H).
Qed.

(** X1.  The diagnostic of a failed validation, in general: whatever the
    store, the configuration and the order of the keys, the message is
    ["build <bad> is missing os-arch target <good>"], where [bad] and
    [good] are the keys of two groups, the first smaller than the
    second.  Build names do not enter it. *)
Theorem newRuntime_error_names_two_groups archive context
    (order : list string) (e : error)
    (Horder : archive.range_order (archive.group_builds archive context) order)
    (Herr : archive.newRuntime archive context order = Err e) :
  ∃ bad good gb gg,
    archive.group_builds archive context !! bad = Some gb ∧
    archive.group_builds archive context !! good = Some gg ∧
    (length gb < length gg)%nat ∧
    e = "build " +:+ bad +:+ " is missing os-arch target " +:+ good.
Proof.
  unfold archive.newRuntime in Herr.
  destruct (archive.check_counts _ order 0 "") as [|e'| |] eqn:Hc; simplify_eq.
  pose proof (λ k, proj1 (range_order_elem_of _ _ k Horder)) as Hin.
  destruct order as [|k order]; [done|].
  destruct (Hin k) as [g Hg]; [by left|]. simpl in Hc. rewrite Hg in Hc.
  simpl in Hc.
  assert (0 < Z.of_nat (length g)) as Hpos.
  { pose proof (group_builds_nonempty _ _ _ _ Hg). destruct g; [done|].
    simpl. lia. }
  destruct (check_counts_error _ order
              (λ k' Hk', Hin k' (list_elem_of_further _ _ _ Hk'))
              _ k g e Hg eq_refl Hpos Hc)
    as (bad & good & gb & gg & Hb & Hgd & Hlt & ->).
  exists bad, good, gb, gg. split; [done|]. split; [done|]. split; [done|].
  eapply errNumTargets_on_groups; eauto using group_builds_OsArch.
  - by eapply group_builds_nonempty.
  - by eapply group_builds_nonempty.
  - intros ->. simplify_eq. lia.
Qed.

(** C1.  Over any order in which the loop may meet the keys,
    [newRuntime] returns an error exactly when two of the groups differ
    in their number of artifacts, and when all groups have the same
    number it returns the runtime that holds exactly the groups; it
    always does one or the other.  The groups are those of the keys
    outside [Skip]: each holds the selected artifacts of its os-arch
    pair and is absent when there are none. *)
Theorem newRuntime_fails_iff_counts_differ archive context (order : list string)
    (Horder : archive.range_order (archive.group_builds archive context) order) :
  (∀ k, archive.group_builds archive context !! k =
          if decide (k ∈ archive.Skip archive) then None
          else match group_of archive context k with
               | [] => None
               | g => Some g
               end)
  ∧ (is_Err (archive.newRuntime archive context order) = true ↔
       ∃ k1 k2 g1 g2,
         archive.group_builds archive context !! k1 = Some g1 ∧
         archive.group_builds archive context !! k2 = Some g2 ∧
         length g1 ≠ length g2)
  ∧ ((∀ k1 k2 g1 g2,
        archive.group_builds archive context !! k1 = Some g1 →
        archive.group_builds archive context !! k2 = Some g2 →
        length g1 = length g2) →
     archive.newRuntime archive context order =
       Ok {| archive.Tar_ := archive;
             archive.targets := archive.group_builds archive context |})
  ∧ (is_Err (archive.newRuntime archive context order) = true
     ∨ archive.newRuntime archive context order =
         Ok {| archive.Tar_ := archive;
               archive.targets := archive.group_builds archive context |}).
Proof.
  split; [apply group_builds_lookup|].
  unfold archive.newRuntime.
  destruct (check_counts_start (archive.group_builds archive context) order
              (group_builds_nonempty archive context)
              (λ k, proj1 (range_order_elem_of _ _ k Horder)))
    as [[-> Hall]|[HErr (k1 & k2 & g1 & g2 & H1 & H2 & Hg1 & Hg2 & Hlen)]].
  - split; [|by auto]. split; [done|].
    intros (k1 & k2 & g1 & g2 & Hg1 & Hg2 & Hlen). exfalso. apply Hlen.
    apply (Hall k1 k2); [| |done..];
      by apply (range_order_elem_of _ _ _ Horder).
  - destruct (archive.check_counts _ order 0 "") as [[]|e| |]; try done.
    split; [|split; [|by left]].
    + split; [|done]. intros _. by exists k1, k2, g1, g2.
    + intros Hall. exfalso. apply Hlen. by apply (Hall k1 k2).
Qed.

(** C10.  Every group of a runtime that [newRuntime] returns holds at
    least one artifact.  So for every key of the runtime the guard of
    [singleTarget] is false, and [singleTarget] does not return the
    ["empty target for os-arch ..."] error. *)
Theorem newRuntime_groups_nonempty archive context (order : list string)
    (rt : archive.tarRuntime)
    (Hrt : archive.newRuntime archive context order = Ok rt) :
  ∀ osarch artifacts,
    archive.targets rt !! osarch = Some artifacts →
    artifacts ≠ []
    ∧ archive.empty_target rt osarch = false
    ∧ ∀ env Parse context',
        archive.newSingleTarget env Parse rt context' osarch
          ≠ Err ("empty target for os-arch " +:+ osarch).
Proof.
  intros osarch artifacts Hg.
  assert (artifacts ≠ []) as Hne.
  { unfold archive.newRuntime in Hrt.
    destruct (archive.check_counts _ _ _ _); simplify_eq.
    by eapply group_builds_nonempty. }
  assert (archive.empty_target rt osarch = false) as Hguard.
  { unfold archive.empty_target. rewrite Hg.
    apply bool_decide_eq_false_2. by destruct artifacts. }
  split; [done|]. split; [done|].
  intros env Parse context'. unfold archive.newSingleTarget.
  rewrite Hguard, Hg. destruct artifacts as [|first rest]; [done|].
  destruct (Parse _ _ _); [|done].
  by destruct (Parse _ _ _).
Qed.

End GroupingFacts.

(** ** Runs of the Tar module *)

Section RunFacts.

Implicit Types (archive : archive.Tar) (context : ctx.Context).

Lemma range_order_empty {A : Type} (order : list string) :
  archive.range_order (∅ : gmap string A) order → order = [].
Proof.
  unfold archive.range_order. rewrite map_to_list_empty. simpl.
  apply Permutation_nil_r.
Qed.

(** No group at all: every selected artifact is of a skipped os-arch
    pair (in particular when nothing is selected). *)
Lemma group_builds_empty archive context :
  (∀ a, a ∈ selected archive context → ctx.OsArch a ∈ archive.Skip archive) →
  archive.group_builds archive context = ∅.
Proof.
  intros Hall. apply map_eq. intros k.
  rewrite group_builds_lookup, lookup_empty.
  destruct (decide (k ∈ archive.Skip archive)) as [|Hk]; [done|].
  destruct (group_of archive context k) as [|a g] eqn:E; [done|].
  assert (a ∈ group_of archive context k) as Ha by (rewrite E; left).
  apply list_elem_of_filter in Ha as [<- Ha]. by apply Hall in Ha.
Qed.

(** C3 on the code.  When no selected artifact is left after the
    exclusions, there is no group, the validation loop and the loop of
    [run] have nothing to range over, and [Run] returns without an
    error, leaving the Build Context and the disk untouched: the
    ["no builds found"] error of [errNumTargets] is not reached. *)
Theorem Run_without_groups_succeeds (env : Env)
    (Parse : archive.TemplateData → string → string → string + error)
    archive context (disk : archive.Disk) (order1 order2 : list string)
    (Hnone : ∀ a, a ∈ selected archive context →
                  ctx.OsArch a ∈ archive.Skip archive)
    (H1 : archive.range_order (archive.group_builds archive context) order1)
    (H2 : archive.range_order (archive.group_builds archive context) order2) :
  archive.Run env Parse archive order1 order2 context disk
    = (context, disk, Ok ()).
Proof.
  rewrite (group_builds_empty _ _ Hnone) in H1, H2.
  apply range_order_empty in H1 as ->. apply range_order_empty in H2 as ->.
  done.
Qed.

(** C2 on the code.  With [server] and [cli] built for linux-amd64 and
    only [server] for darwin-amd64, the validation fails, in whichever
    order the two groups are met, and its message is
    ["build darwin-amd64 is missing os-arch target linux-amd64"]: it
    names the two os-arch groups, and neither [cli], the build that
    darwin-amd64 lacks, nor [server] occurs in it. *)
Theorem uneven_groups_diagnostic (order : list string)
    (Horder : archive.range_order
                (archive.group_builds scenario.two_builds scenario.uneven) order) :
  archive.newRuntime scenario.two_builds scenario.uneven order
    = Err "build darwin-amd64 is missing os-arch target linux-amd64"
  ∧ gostd.Contains "build darwin-amd64 is missing os-arch target linux-amd64"
      "cli" = false
  ∧ gostd.Contains "build darwin-amd64 is missing os-arch target linux-amd64"
      "server" = false.
Proof.
  split; [|by vm_compute].
  unfold archive.range_order in Horder.
  assert ((map_to_list
             (archive.group_builds scenario.two_builds scenario.uneven)).*1
          = ["linux-amd64"; "darwin-amd64"]) as E by (by vm_compute).
  rewrite E in Horder. symmetry in Horder.
  apply Permutation_length_2_inv in Horder as [->| ->]; by vm_compute.
Qed.

Lemma append_data_last (es : list tar.Entry) (e : tar.Entry) bs :
  tar.append_data (es ++ [e]) bs
  = es ++ [{| tar.eHeader := tar.eHeader e; tar.eData := tar.eData e ++ bs |}].
Proof.
  unfold tar.append_data. rewrite reverse_app. simpl.
  by rewrite reverse_involutive.
Qed.

(** X2.  [writeFile] on a source that delivers no more bytes than
    [os.Stat] reported, possibly fewer: it returns without an error, and the
    writer is left expecting the bytes that did not come. *)
Theorem writeFile_accepts_short_source (env : Env) (destpath source : string)
    (fi : tar.FileInfo) (content : list Byte.byte)
    (t : archive.singleTarget) (tw : tar.Writer)
    (Hstat : os_Stat env source = inl fi)
    (Hreg : tar.fiKind fi = tar.Regular)
    (Hopen : os_Open env source = inl (content, None))
    (Hshort : Z.of_nat (length content) ≤ tar.fiSize fi)
    (Hflushed : tar.nb tw ≤ 0) :
  archive.writeFile env destpath source (t, tw)
  = ((t, {| tar.entries :=
              tar.entries tw
                ++ [{| tar.eHeader :=
                         {| tar.hName := destpath; tar.hSize := tar.fiSize fi;
                            tar.hTypeflag := tar.TypeReg |};
                       tar.eData := content |}];
            tar.nb := tar.fiSize fi - Z.of_nat (length content);
            tar.trailer := tar.trailer tw |}),
     Ok ()).
Proof.
  unfold archive.writeFile, archive.bind, archive.wrap, archive.of_sum,
    archive.of_outcome, archive.ret, archive.tw_WriteHeader,
    archive.CopyBuffer, tar.FileInfoHeader, tar.WriteHeader, tar.Flush,
    tar.Write.
  rewrite Hstat. simpl. rewrite Hreg. simpl.
  rewrite (proj2 (Z.ltb_ge 0 (tar.nb tw))) by done. simpl.
  rewrite Hopen. simpl.
  rewrite (proj2 (Z.ltb_ge (tar.fiSize fi) (Z.of_nat (length content)))) by done.
  simpl. by rewrite append_data_last.
Qed.

(** X3.  [writeFile] called while the previous member is still short of
    bytes: the header cannot be written, and the error of the tar
    writer comes back as it is. *)
Theorem writeFile_after_short_member_fails (env : Env) (destpath source : string)
    (fi : tar.FileInfo) (t : archive.singleTarget) (tw : tar.Writer)
    (Hstat : os_Stat env source = inl fi)
    (Hreg : tar.fiKind fi = tar.Regular)
    (Hpending : 0 < tar.nb tw) :
  archive.writeFile env destpath source (t, tw)
  = ((t, tw),
     Err ("archive/tar: missed writing " +:+ pretty (tar.nb tw) +:+ " bytes")).
Proof.
  unfold archive.writeFile, archive.bind, archive.wrap, archive.of_sum,
    archive.of_outcome, archive.ret, archive.tw_WriteHeader,
    tar.FileInfoHeader, tar.WriteHeader, tar.Flush.
  rewrite Hstat. simpl. rewrite Hreg. simpl.
  by rewrite (proj2 (Z.ltb_lt 0 (tar.nb tw))) by done.
Qed.

(** X4.  A target that [singleTarget.run] completes adds exactly one
    artifact to the store, at its end: format tar, the configured name,
    the output path as file name and location, and the platform of the
    group. *)
Theorem singleTarget_run_registers_archive (env : Env)
    (target : archive.singleTarget) (context context' : ctx.Context)
    (disk disk' : archive.Disk)
    (Hrun : archive.singleTarget_run env target context disk
            = (context', disk', Ok ())) :
  ctx.Artifacts_ context'
  = ctx.Artifacts_ context
      ++ [{| ctx.Arch := archive.tArch target;
             ctx.Filename := archive.tOutput target;
             ctx.Format := ctx.FormatTar;
             ctx.Location := archive.tOutput target;
             ctx.Name := archive.tName target;
             ctx.OS := archive.tOS target |}].
Proof.
  unfold archive.singleTarget_run in Hrun.
  destruct (os_Create env _); [done|].
  destruct (archive.bind _ _ _) as [[t tw] [[]|e| |]]; by simplify_eq.
Qed.

(** C4 on the code.  The one build output is reported as 10 bytes long
    by [os.Stat] and delivers 5 bytes when it is copied; it is the last
    member written.  [Run] returns no error and registers the archive
    as an artifact, while the archive on disk holds a member whose
    header announces 10 bytes followed by 5, and no end-of-archive
    trailer. *)
Theorem truncated_source_goes_unnoticed :
  archive.range_order
    (archive.group_builds scenario.flat scenario.one_build) ["linux-amd64"]
  ∧ archive.Run scenario.cut_short scenario.literal scenario.flat
      ["linux-amd64"] ["linux-amd64"] scenario.one_build []
    = (scenario.context_of
         [scenario.artifact "default" "linux" "amd64" "dist/app";
          {| ctx.Arch := "amd64"; ctx.Filename := "dist/out.tar";
             ctx.Format := ctx.FormatTar; ctx.Location := "dist/out.tar";
             ctx.Name := "archive"; ctx.OS := "linux" |}],
       [("dist/out.tar",
         {| archive.afCompression := archive.CompressNONE;
            archive.afTar :=
              {| tar.entries :=
                   [{| tar.eHeader :=
                         {| tar.hName := "app"; tar.hSize := 10;
                            tar.hTypeflag := tar.TypeReg |};
                       tar.eData := repeat Byte.x41 5 |}];
                 tar.nb := 5;
                 tar.trailer := false |} |})],
       Ok ())
  ∧ tar.well_formed
      {| tar.entries :=
           [{| tar.eHeader :=
                 {| tar.hName := "app"; tar.hSize := 10;
                    tar.hTypeflag := tar.TypeReg |};
               tar.eData := repeat Byte.x41 5 |}];
         tar.nb := 5;
         tar.trailer := false |} = false.
Proof. repeat split; by vm_compute. Qed.

End RunFacts.

(** ** Further properties of the store and the container *)

Section MoreContainerFacts.

Context {W : Type}.
Variable registry : gmap string (modules.PluggableFactory W).
Variable Decode : yaml.Node → modules.Pluggable W → modules.Pluggable W + error.

Abbreviation Add := (modules.Add registry Decode).
Abbreviation entry_decodes := (entry_decodes registry Decode).

(** X7.  Looking a name up after [Add]: the new artifact comes last
    among those of its own name and does not show under any other. *)
Theorem ByName_after_Add (arts : ctx.Artifacts) (a : ctx.Artifact) (name : string) :
  ctx.ByName (ctx.Add arts a) name
  = if decide (ctx.Name a = name) then ctx.ByName arts name ++ [a]
    else ctx.ByName arts name.
Proof.
  unfold ctx.ByName, ctx.Add. rewrite filter_app, filter_cons, filter_nil.
  destruct (decide (ctx.Name a = name)); [done|]. by rewrite app_nil_r.
Qed.

(** X8.  A call of [Add] either succeeds and appends exactly one module,
    of the requested type, behind the modules already there, or fails
    and leaves the container as it was; the stage and the skip
    predicate stay in either case. *)
Theorem Add_appends_one_or_nothing (mod_ : modules.Modules W)
    (itemType : string) (node : option yaml.Node) (once : bool) :
  ((∃ p, (Add mod_ itemType node once).2 = None ∧
         modules.Modules_ (Add mod_ itemType node once).1
         = modules.Modules_ mod_
             ++ [{| modules.Type_ := itemType; modules.Pluggable_ := p |}])
   ∨ (∃ err, Add mod_ itemType node once = (mod_, Some err)))
  ∧ modules.Stage (Add mod_ itemType node once).1 = modules.Stage mod_
  ∧ modules.SkipFn (Add mod_ itemType node once).1 = modules.SkipFn mod_.
Proof.
  destruct (Add mod_ itemType node once) as [mod' [err|]] eqn:HA.
  - apply Add_failure_unchanged in HA as ->. split; [|done].
    right. by exists err.
  - apply Add_success in HA as (kind & f & t & _ & _ & ->). split; [|done].
    left. by exists t.
Qed.

(** X9.  [flagLoaded] and [isLoaded]: nothing is loaded in a new
    container; a flagged kind is loaded; flagging one kind does not
    change the answer for another, nor the list of modules. *)
Theorem isLoaded_after_flagLoaded (mod_ : modules.Modules W)
    (stage kind kind' : string) :
  modules.isLoaded (modules.NewModules (W:=W) stage) kind = false
  ∧ modules.isLoaded (modules.flagLoaded mod_ kind) kind = true
  ∧ (kind ≠ kind' →
     modules.isLoaded (modules.flagLoaded mod_ kind) kind'
     = modules.isLoaded mod_ kind')
  ∧ modules.Modules_ (modules.flagLoaded mod_ kind) = modules.Modules_ mod_.
Proof.
  split; [done|]. split.
  - rewrite isLoaded_flagLoaded. by rewrite bool_decide_eq_true_2.
  - split; [|done]. intros Hne. rewrite isLoaded_flagLoaded.
    by rewrite bool_decide_eq_false_2.
Qed.

Lemma getType_from_skip (pairs : list (yaml.Node * yaml.Node)) tail :
  no_type_key pairs →
  modules.getType_from (mapping_content pairs ++ tail)
  = modules.getType_from tail.
Proof.
  induction 1 as [|[k v] pairs Hk _ IH]; [done|]. simpl in *.
  by rewrite (proj2 (String.eqb_neq _ _) Hk).
Qed.

(** X10.  [getType] returns the value under the first key [type] of a
    mapping, whatever follows it; a mapping without that key gives the
    error ["type not defined"]; and a content with a dangling key and
    no [type] key before it makes the call panic. *)
Theorem getType_first_type_key (kind : yaml.Kind) (value : string)
    (before after : list (yaml.Node * yaml.Node)) (k v : yaml.Node)
    (Hbefore : no_type_key before) :
  (yaml.Value k = "type" →
   modules.getType
     (yaml.mkNode kind value (mapping_content (before ++ (k, v) :: after)))
   = Ok (yaml.Value v))
  ∧ modules.getType (yaml.mkNode kind value (mapping_content before))
    = Err "type not defined"
  ∧ modules.getType (yaml.mkNode kind value (mapping_content before ++ [k]))
    = Panics "index out of range".
Proof.
  unfold modules.getType. simpl. split; [|split].
  - intros Hk. unfold mapping_content. rewrite flat_map_app.
    rewrite (getType_from_skip before) by done. simpl. by rewrite Hk.
  - rewrite <- (app_nil_r (mapping_content before)).
    by rewrite getType_from_skip.
  - by rewrite getType_from_skip.
Qed.

Lemma UnmarshalYAML_from_prefix good : ∀ mod_ idx ms tail,
  Forall2 (entry_decodes (modules.Stage mod_)) good ms →
  ∃ mod1,
    modules.UnmarshalYAML_from registry Decode mod_ idx (good ++ tail)
    = modules.UnmarshalYAML_from registry Decode mod1 (idx + length good) tail
    ∧ modules.Modules_ mod1 = modules.Modules_ mod_ ++ ms
    ∧ modules.Stage mod1 = modules.Stage mod_.
Proof.
  induction good as [|child good IH]; intros mod_ idx ms tail Hall.
  - apply Forall2_nil_inv_l in Hall as ->. exists mod_.
    by rewrite Nat.add_0_r, app_nil_r.
  - apply Forall2_cons_inv_l in Hall
      as (m & ms' & (Hk & Ht & kind & f & Hp & Hd) & Hall & ->).
    simpl. rewrite bool_decide_eq_true_2 by done. simpl. rewrite Ht.
    unfold modules.Add, modules.Add_resolved. rewrite Hp. simpl. rewrite Hd.
    edestruct (IH (modules.flagLoaded (modules.append_module mod_
                 {| modules.Type_ := modules.Type_ m;
                    modules.Pluggable_ := modules.Pluggable_ m |}) kind)
                 (S idx) ms' tail) as (mod1 & -> & Hms & HS); [done|].
    exists mod1. rewrite Nat.add_succ_r. split; [done|]. split; [|done].
    rewrite Hms. simpl. rewrite <- app_assoc. by destruct m.
Qed.

(** X11.  [UnmarshalYAML] stops at the first entry it cannot load and
    names it by its position, counted from 1: an entry that is not a
    mapping, an entry without a [type] key, an entry whose type is not
    registered.  The modules of the entries before it stay in the
    container. *)
Theorem UnmarshalYAML_stops_at_bad_entry (stage value : string)
    (good rest : list yaml.Node) (bad : yaml.Node)
    (ms : list (modules.Module W))
    (Hgood : Forall2 (entry_decodes stage) good ms) :
  (yaml.Kind_ bad ≠ yaml.MappingNode →
   ∃ mod',
     modules.UnmarshalYAML registry Decode (modules.NewModules stage)
       (yaml.mkNode yaml.SequenceNode value (good ++ bad :: rest))
     = (mod', Err ("item #" +:+ pretty (S (length good)) +:+ " of `" +:+ stage
                   +:+ "` definition is not a map"))
     ∧ modules.Modules_ mod' = ms)
  ∧ (yaml.Kind_ bad = yaml.MappingNode →
     modules.getType bad = Err "type not defined" →
     ∃ mod',
       modules.UnmarshalYAML registry Decode (modules.NewModules stage)
         (yaml.mkNode yaml.SequenceNode value (good ++ bad :: rest))
       = (mod', Err ("definition " +:+ stage +:+ ", item #"
                     +:+ pretty (S (length good)) +:+ ": type not defined"))
       ∧ modules.Modules_ mod' = ms)
  ∧ (∀ itemType,
       yaml.Kind_ bad = yaml.MappingNode →
       modules.getType bad = Ok itemType →
       registry !! (stage +:+ ":" +:+ itemType) = None →
       registry !! ("*:" +:+ itemType) = None →
       ∃ mod',
         modules.UnmarshalYAML registry Decode (modules.NewModules stage)
           (yaml.mkNode yaml.SequenceNode value (good ++ bad :: rest))
         = (mod', Err ("unknown module " +:+ stage +:+ ":" +:+ itemType))
         ∧ modules.Modules_ mod' = ms).
Proof.
  destruct (UnmarshalYAML_from_prefix good (modules.NewModules stage) 0 ms
              (bad :: rest) Hgood) as (mod1 & Heq & Hms & HS).
  simpl in Hms, HS. unfold modules.UnmarshalYAML. simpl. rewrite Heq.
  simpl. rewrite Nat.add_1_r, HS.
  split; [|split].
  - intros Hk. exists mod1. by rewrite bool_decide_eq_false_2.
  - intros Hk Ht. exists mod1. rewrite bool_decide_eq_true_2 by done.
    simpl. by rewrite Ht.
  - intros itemType Hk Ht H1 H2. exists mod1.
    rewrite bool_decide_eq_true_2 by done. simpl. rewrite Ht.
    unfold modules.Add. simpl. unfold modules.LookupModule. rewrite HS, H1.
    change ("*" +:+ ":" +:+ itemType) with ("*:" +:+ itemType).
    by rewrite H2.
Qed.

Lemma run_from_log stage (mods : list (modules.Module W)) : ∀ st st',
  modules.run_from stage mods st = (st', Ok ()) →
  modules.log st' = modules.log st ++ module_lines mods.
Proof.
  induction mods as [|m mods IH]; intros st st' H; simpl in H.
  - simplify_eq. by rewrite app_nil_r.
  - destruct (modules.Run (modules.Pluggable_ m) _ _) as [[c w] [[]|e| |]];
      try done.
    apply IH in H. rewrite H. simpl. by rewrite <- !app_assoc.
Qed.

(** X12.  A stage that is not skipped and returns without an error has
    run every module of the container, in the order of the container:
    the log gains the opening line, the two lines of each module in
    turn, and the closing line. *)
Theorem Run_success_runs_all_in_order (mod_ : modules.Modules W)
    (st st' : modules.State W)
    (Hskip : match modules.SkipFn mod_ with
             | None => false
             | Some f => f (modules.context st)
             end = false)
    (Hrun : modules.Run_ mod_ st = (st', Ok ())) :
  modules.log st'
  = modules.log st
      ++ [modules.StageBegin (modules.Stage mod_)]
      ++ module_lines (modules.Modules_ mod_)
      ++ [modules.StageEnd (modules.Stage mod_)].
Proof.
  unfold modules.Run_ in Hrun. simpl in Hrun. rewrite Hskip in Hrun.
  destruct (modules.run mod_ _) as [st1 [[]|e| |]] eqn:Hr; simplify_eq.
  apply run_from_log in Hr. simpl in *. rewrite Hr.
  by rewrite <- !app_assoc.
Qed.

End MoreContainerFacts.

(** ** Further properties of the Tar module *)

Section WriterFacts.

Variable env : Env.

Lemma keeps_ret {A} I (a : A) : keeps I (archive.ret a).
Proof. by intros st. Qed.

Lemma keeps_fail {A} I e : keeps I (archive.fail (A:=A) e).
Proof. by intros st. Qed.

Lemma keeps_of_sum {A} I (r : A + error) : keeps I (archive.of_sum r).
Proof. by destruct r; intros st. Qed.

Lemma keeps_of_outcome {A} I (r : outcome A) : keeps I (archive.of_outcome r).
Proof. by intros st. Qed.

Lemma keeps_wrap {A} I pre (m : archive.M A) :
  keeps I m → keeps I (archive.wrap pre m).
Proof.
  intros Hm st Hst. specialize (Hm st Hst). unfold archive.wrap.
  by destruct (m st) as [st' [a|e| |]].
Qed.

Lemma keeps_bind {A B} I (m : archive.M A) (k : A → archive.M B) :
  keeps I m → (∀ a, keeps I (k a)) → keeps I (archive.bind m k).
Proof.
  intros Hm Hk st Hst. specialize (Hm st Hst). unfold archive.bind.
  destruct (m st) as [st' [a|e| |]]; [|done..]. by apply Hk.
Qed.

Lemma keeps_forM_ {A} I (f : A → archive.M unit) l :
  (∀ a, keeps I (f a)) → keeps I (archive.forM_ f l).
Proof.
  intros Hf. induction l as [|a l IH]; [apply keeps_ret|].
  simpl. by apply keeps_bind.
Qed.

Lemma keeps_WriteHeader hdr :
  0 ≤ tar.hSize hdr → keeps writer_ok (archive.tw_WriteHeader hdr).
Proof.
  intros Hsize [t tw] [Hinv Htr]. simpl in *.
  unfold archive.tw_WriteHeader, tar.WriteHeader, tar.Flush.
  destruct (0 <? tar.nb tw) eqn:E; [done|]. apply Z.ltb_ge in E.
  simpl. split; [|done]. right.
  exists (tar.entries tw), {| tar.eHeader := hdr; tar.eData := [] |}.
  simpl. split; [done|]. split; [|lia].
  destruct Hinv as [[-> _]|(es & e & -> & Hes & Hnb & Hpos)]; [done|].
  apply Forall_app. split; [done|]. apply Forall_singleton.
  unfold tar.entry_complete. apply bool_decide_eq_true_2. lia.
Qed.

Lemma keeps_CopyBuffer src : keeps writer_ok (archive.CopyBuffer src).
Proof.
  intros [t tw] [Hinv Htr]. simpl in *.
  unfold archive.CopyBuffer, tar.Write. simpl.
  set (b := src.1).
  destruct (tar.nb tw <? Z.of_nat (length b)) eqn:E; simpl.
  - apply Z.ltb_lt in E. split; [|done].
    destruct Hinv as [[He Hnb]|(es & e & He & Hes & Hnb & Hpos)].
    + left. rewrite He, Hnb. simpl. done.
    + right. rewrite He, append_data_last.
      eexists es, _. split; [done|]. split; [done|]. simpl.
      rewrite length_app, length_take. lia.
  - apply Z.ltb_ge in E. split; [|done].
    destruct Hinv as [[He Hnb]|(es & e & He & Hes & Hnb & Hpos)].
    + left. rewrite He. simpl. split; [done|].
      destruct b; simpl in *; lia.
    + right. rewrite He, append_data_last.
      eexists es, _. split; [done|]. split; [done|]. simpl.
      rewrite length_app. lia.
Qed.

Lemma FileInfoHeader_size fi hdr :
  0 ≤ tar.fiSize fi → tar.FileInfoHeader fi = Ok hdr → 0 ≤ tar.hSize hdr.
Proof.
  unfold tar.FileInfoHeader. intros Hfi.
  destruct (tar.fiKind fi); intros; simplify_eq; simpl; lia.
Qed.

Lemma keeps_writeFile destpath source :
  nonneg_sizes env → keeps writer_ok (archive.writeFile env destpath source).
Proof.
  intros Hnn st Hst. unfold archive.writeFile, archive.bind at 1.
  unfold archive.wrap, archive.of_sum.
  destruct (os_Stat env source) as [fi|e] eqn:Hs; [|done]. simpl.
  unfold archive.bind at 1, archive.of_outcome.
  destruct (tar.FileInfoHeader fi) as [hdr| | |] eqn:Hh; [|done..].
  revert st Hst. apply keeps_bind.
  { apply keeps_WriteHeader. simpl.
    eapply FileInfoHeader_size; [|done]. by eapply Hnn. }
  intros _. apply keeps_bind; [apply keeps_of_sum|].
  intros r. apply keeps_bind; [apply keeps_CopyBuffer|].
  intros [n [err|]]; [apply keeps_fail|apply keeps_ret].
Qed.

Lemma keeps_writeDir TargetDir dirname :
  nonneg_sizes env → keeps writer_ok (archive.writeDir env TargetDir dirname).
Proof.
  intros Hnn st Hst. unfold archive.writeDir.
  destruct (archive.tDirsWritten st.1 !! dirname); [done|].
  unfold archive.bind at 1, archive.of_sum.
  destruct (os_Stat env TargetDir) as [fi|e] eqn:Hs; [|done]. simpl.
  unfold archive.bind at 1, archive.of_outcome.
  destruct (tar.FileInfoHeader fi) as [hdr| | |] eqn:Hh; [|done..].
  revert st Hst. apply keeps_bind.
  { apply keeps_WriteHeader. simpl.
    eapply FileInfoHeader_size; [|done]. by eapply Hnn. }
  intros _ [t tw] Hst. done.
Qed.

Lemma keeps_writeDirs TargetDir fullpath :
  nonneg_sizes env → keeps writer_ok (archive.writeDirs env TargetDir fullpath).
Proof.
  intros Hnn. unfold archive.writeDirs.
  destruct (String.eqb fullpath "."); [apply keeps_ret|].
  destruct (archive.ancestors _ _); [|apply keeps_of_outcome].
  apply keeps_forM_. intros d. by apply keeps_wrap, keeps_writeDir.
Qed.

Lemma keeps_writeArtifact TargetDir artifact :
  nonneg_sizes env → keeps writer_ok (archive.writeArtifact env TargetDir artifact).
Proof.
  intros Hnn st Hst. unfold archive.writeArtifact.
  refine (keeps_bind writer_ok _ _ _ _ st Hst); [by apply keeps_writeDirs|].
  intros _. by apply keeps_writeFile.
Qed.

Lemma keeps_writeFileGlob TargetDir source :
  nonneg_sizes env → keeps writer_ok (archive.writeFileGlob env TargetDir source).
Proof.
  intros Hnn st Hst. unfold archive.writeFileGlob.
  refine (keeps_bind writer_ok _ _ _ _ st Hst); [apply keeps_of_sum|].
  intros matches. apply keeps_forM_. intros f.
  apply keeps_bind; [by apply keeps_writeDirs|].
  intros _. by apply keeps_writeFile.
Qed.

End WriterFacts.

Section TargetFacts.

Variable env : Env.
Variable Parse : archive.TemplateData → string → string → string + error.

Implicit Types (target : archive.singleTarget) (context : ctx.Context).
Implicit Types (disk : archive.Disk).

(** X13.  Whatever [singleTarget.run] returns, and provided [os.Stat]
    reports no negative size, the archive it leaves on disk can be
    short only in its last member: every member before the last has
    all the bytes its header announces.  The archive is whole, trailer
    included, exactly when the last member is not short. *)
Theorem archive_short_only_in_last_member target context disk
    (Hsizes : nonneg_sizes env)
    (Hcreate : os_Create env (archive.tOutput target) = None) :
  ∃ file,
    (archive.singleTarget_run env target context disk).1.2
    = disk ++ [(archive.tOutput target, file)]
    ∧ short_only_last (archive.afTar file)
    ∧ (tar.well_formed (archive.afTar file) = true
       ↔ tar.nb (archive.afTar file) = 0).
Proof.
  unfold archive.singleTarget_run. rewrite Hcreate.
  set (body := archive.bind _ _).
  assert (keeps writer_ok body) as Hbody.
  { apply keeps_bind.
    - apply keeps_wrap, keeps_forM_. intros a. by apply keeps_writeArtifact.
    - intros _. apply keeps_wrap, keeps_forM_. intros f.
      by apply keeps_writeFileGlob. }
  specialize (Hbody (target, tar.NewWriter)).
  destruct (body (target, tar.NewWriter)) as [[t tw] r]. simpl in Hbody.
  destruct Hbody as [Hinv Htr]; [split; [by left|done]|].
  simpl in Hinv, Htr. eexists. split; [by destruct r as [[]|e| |]|]. simpl.
  unfold tar.Close, tar.Flush, tar.well_formed.
  destruct (0 <? tar.nb tw) eqn:E; simpl.
  - apply Z.ltb_lt in E. split; [done|]. rewrite Htr, andb_false_r.
    split; [done|lia].
  - apply Z.ltb_ge in E. split; [done|]. rewrite andb_true_r.
    destruct Hinv as [[-> Hnb]|(es & e & -> & Hes & Hnb & Hpos)]; [done|].
    assert (tar.nb tw = 0) as H0 by lia. split; [done|]. intros _.
    apply forallb_forall. intros x [Hx|Hx]%in_app_or.
    + rewrite Forall_forall in Hes. apply Hes. by apply list_elem_of_In.
    + destruct Hx as [<-|[]]. apply bool_decide_eq_true_2. lia.
Qed.

(** X14.  [writeFile] on a regular source that delivers more bytes than
    [os.Stat] reported: the member takes the reported number of bytes
    and the call fails; the message gives that number both as the bytes
    written and as the bytes reported. *)
Theorem writeFile_rejects_long_source (destpath source : string)
    (fi : tar.FileInfo) (content : list Byte.byte) (rerr : option error)
    (t : archive.singleTarget) (tw : tar.Writer)
    (Hstat : os_Stat env source = inl fi)
    (Hreg : tar.fiKind fi = tar.Regular)
    (Hopen : os_Open env source = inl (content, rerr))
    (Hsize : 0 ≤ tar.fiSize fi)
    (Hlong : tar.fiSize fi < Z.of_nat (length content))
    (Hflushed : tar.nb tw ≤ 0) :
  archive.writeFile env destpath source (t, tw)
  = ((t, {| tar.entries :=
              tar.entries tw
                ++ [{| tar.eHeader :=
                         {| tar.hName := destpath; tar.hSize := tar.fiSize fi;
                            tar.hTypeflag := tar.TypeReg |};
                       tar.eData := take (Z.to_nat (tar.fiSize fi)) content |}];
            tar.nb := 0;
            tar.trailer := tar.trailer tw |}),
     Err ("copying " +:+ source +:+ " to archive " +:+ destpath +:+ " ("
          +:+ pretty (tar.fiSize fi) +:+ " bytes written, "
          +:+ pretty (tar.fiSize fi)
          +:+ " bytes reported): archive/tar: write too long")).
Proof.
  unfold archive.writeFile, archive.bind, archive.wrap, archive.of_sum,
    archive.of_outcome, archive.ret, archive.fail, archive.tw_WriteHeader,
    archive.CopyBuffer, tar.FileInfoHeader, tar.WriteHeader, tar.Flush,
    tar.Write.
  rewrite Hstat. simpl. rewrite Hreg. simpl.
  rewrite (proj2 (Z.ltb_ge 0 (tar.nb tw))) by done. simpl.
  rewrite Hopen. simpl.
  rewrite (proj2 (Z.ltb_lt (tar.fiSize fi) (Z.of_nat (length content)))) by done.
  simpl. rewrite append_data_last. simpl.
  assert (Z.of_nat (length (take (Z.to_nat (tar.fiSize fi)) content))
          = tar.fiSize fi) as -> by (rewrite length_take; lia).
  by rewrite Z.sub_diag.
Qed.

Lemma singleTarget_run_Err_context target context disk :
  (archive.singleTarget_run env target context disk).2 ≠ Ok () →
  (archive.singleTarget_run env target context disk).1.1 = context.
Proof.
  unfold archive.singleTarget_run.
  destruct (os_Create env _) as [e|]; [done|].
  by destruct (archive.bind _ _ _) as [[t tw] [[]|e| |]].
Qed.

(** X15.  A target that [singleTarget.run] does not complete registers
    nothing: the Build Context comes back as it was.  When the output
    file cannot be created the disk is untouched too; once it has been
    created the file stays on disk, whatever happens next. *)
Theorem singleTarget_run_failure_registers_nothing target context disk :
  ((archive.singleTarget_run env target context disk).2 ≠ Ok () →
   (archive.singleTarget_run env target context disk).1.1 = context)
  ∧ (∀ err,
       os_Create env (archive.tOutput target) = Some err →
       archive.singleTarget_run env target context disk
       = (context, disk,
          Err ("cannot create archive file " +:+ archive.tOutput target
               +:+ ": " +:+ err)))
  ∧ (os_Create env (archive.tOutput target) = None →
     ∃ file,
       (archive.singleTarget_run env target context disk).1.2
       = disk ++ [(archive.tOutput target, file)]).
Proof.
  unfold archive.singleTarget_run.
  destruct (os_Create env _) as [e|]; [by repeat split; intros; simplify_eq|].
  destruct (archive.bind _ _ _) as [[t tw] [[]|e| |]]; simpl;
    (split; [done|]; split; [done|]; intros _; by eexists).
Qed.

(** The target [tarRuntime.singleTarget] builds on success. *)
Lemma newSingleTarget_Ok (rt : archive.tarRuntime) context osarch target :
  archive.newSingleTarget env Parse rt context osarch = Ok target →
  ∃ first rest,
    archive.targets rt !! osarch = Some (first :: rest)
    ∧ archive.tTargets target = first :: rest
    ∧ archive.tOS target = ctx.OS first
    ∧ archive.tArch target = ctx.Arch first
    ∧ archive.tName target = archive.Name (archive.Tar_ rt)
    ∧ archive.tFiles target = archive.Files (archive.Tar_ rt)
    ∧ archive.tCompression target = archive.Compression_ (archive.Tar_ rt)
    ∧ archive.tDirsWritten target = ∅.
Proof.
  unfold archive.newSingleTarget. destruct (archive.empty_target rt osarch);
    [done|].
  destruct (archive.targets rt !! osarch) as [[|first rest]|]; [done| |done].
  destruct (Parse _ _ _); [|done]. destruct (Parse _ _ _); [|done].
  intros [= <-]. by exists first, rest.
Qed.

(** X16.  In a runtime returned by [newRuntime], the target built for a
    key carries the group of that key, the platform the key spells,
    the configured name and file patterns, and no directory marked as
    written. *)
Theorem singleTarget_of_runtime (archive : archive.Tar) (context context' : ctx.Context)
    (order : list string) (rt : archive.tarRuntime) (osarch : string)
    (target : archive.singleTarget)
    (Hrt : archive.newRuntime archive context order = Ok rt)
    (Htarget : archive.newSingleTarget env Parse rt context' osarch = Ok target) :
  archive.tOS target +:+ "-" +:+ archive.tArch target = osarch
  ∧ archive.tTargets target = group_of archive context osarch
  ∧ (osarch ∉ archive.Skip archive)
  ∧ archive.tName target = archive.Name archive
  ∧ archive.tFiles target = archive.Files archive
  ∧ archive.tDirsWritten target = ∅.
Proof.
  unfold archive.newRuntime in Hrt.
  destruct (archive.check_counts _ _ _ _); simplify_eq.
  apply newSingleTarget_Ok in Htarget
    as (first & rest & Hg & Ht & HOS & HArch & HN & HF & _ & HD).
  simpl in *. pose proof (group_builds_OsArch _ _ _ _ Hg) as Hall.
  apply Forall_cons in Hall as [Hfirst _].
  rewrite group_builds_lookup in Hg.
  destruct (decide (osarch ∈ archive.Skip archive)); [done|].
  destruct (group_of archive context osarch) eqn:E; [done|].
  rewrite HOS, HArch, Ht, HN, HF, HD. by simplify_eq.
Qed.

Lemma singleTarget_run_Ok target context disk context' disk' :
  archive.singleTarget_run env target context disk = (context', disk', Ok ()) →
  same_settings context context'
  ∧ ctx.Artifacts_ context'
    = ctx.Artifacts_ context
        ++ [{| ctx.Arch := archive.tArch target;
               ctx.Filename := archive.tOutput target;
               ctx.Format := ctx.FormatTar;
               ctx.Location := archive.tOutput target;
               ctx.Name := archive.tName target;
               ctx.OS := archive.tOS target |}]
  ∧ length disk' = S (length disk).
Proof.
  unfold archive.singleTarget_run.
  destruct (os_Create env _); [done|].
  destruct (archive.bind _ _ _) as [[t tw] [[]|e| |]]; intros; simplify_eq.
  split; [done|]. split; [done|]. rewrite length_app. simpl. lia.
Qed.

Lemma run_Ok (rt : archive.tarRuntime) (order : list string) :
  (∀ k g, archive.targets rt !! k = Some g → Forall (λ a, ctx.OsArch a = k) g) →
  ∀ context disk context' disk',
    archive.run env Parse rt order context disk = (context', disk', Ok ()) →
    ∃ tars,
      ctx.Artifacts_ context' = ctx.Artifacts_ context ++ tars
      ∧ map ctx.OsArch tars = order
      ∧ Forall (λ a, ctx.Format a = ctx.FormatTar
                     ∧ ctx.Name a = archive.Name (archive.Tar_ rt)) tars
      ∧ same_settings context context'
      ∧ length disk' = (length disk + length order)%nat.
Proof.
  intros Hkeys. induction order as [|k order IH];
    intros context disk context' disk' H; simpl in H.
  - simplify_eq. exists []. rewrite app_nil_r. by repeat split.
  - destruct (archive.newSingleTarget env Parse rt context k)
      as [target|e| |] eqn:Ht; simplify_eq.
    destruct (archive.singleTarget_run env target context disk)
      as [[c1 d1] [[]|e| |]] eqn:Hr; simplify_eq.
    apply singleTarget_run_Ok in Hr as ((HP & HV & HT & HPub) & Harts & Hd).
    apply IH in H as (tars & Harts' & Hos & Hall & (HP' & HV' & HT' & HPub') & Hd').
    apply newSingleTarget_Ok in Ht
      as (first & rest & Hg & _ & HOS & HArch & HN & _).
    apply Hkeys, Forall_cons in Hg as [Hfirst _].
    eexists (_ :: tars). split; [by rewrite Harts', Harts, <- app_assoc|].
    split; [|split; [|split]].
    + simpl. rewrite Hos. f_equal. unfold ctx.OsArch in *. simpl.
      by rewrite HOS, HArch.
    + by constructor.
    + unfold same_settings. by rewrite HP', HV', HT', HPub'.
    + rewrite Hd', Hd. simpl. lia.
Qed.

(** X17.  A run of the Tar module that returns without an error has
    added one artifact per platform group to the store, behind the
    artifacts already there and in the order in which the groups were
    met: each of format tar, under the configured name, for the
    platform of its group.  One file per group has been created, and
    the settings of the Build Context are as before. *)
Theorem Run_registers_one_archive_per_group (archive : archive.Tar)
    (order1 order2 : list string) context disk context' disk'
    (Hrun : archive.Run env Parse archive order1 order2 context disk
            = (context', disk', Ok ())) :
  ∃ tars,
    ctx.Artifacts_ context' = ctx.Artifacts_ context ++ tars
    ∧ map ctx.OsArch tars = order2
    ∧ Forall (λ a, ctx.Format a = ctx.FormatTar
                   ∧ ctx.Name a = archive.Name archive) tars
    ∧ same_settings context context'
    ∧ length disk' = (length disk + length order2)%nat.
Proof.
  unfold archive.Run, archive.newRuntime in Hrun.
  destruct (archive.check_counts _ _ _ _); simplify_eq.
  apply run_Ok in Hrun; [done|]. simpl. apply group_builds_OsArch.
Qed.

Lemma singleTarget_run_appends target context disk :
  same_settings context (archive.singleTarget_run env target context disk).1.1
  ∧ ctx.Artifacts_ context
      `prefix_of` ctx.Artifacts_ (archive.singleTarget_run env target context disk).1.1
  ∧ disk `prefix_of` (archive.singleTarget_run env target context disk).1.2.
Proof.
  unfold archive.singleTarget_run.
  destruct (os_Create env _); [done|].
  destruct (archive.bind _ _ _) as [[t tw] [[]|e| |]]; simpl;
    repeat split; try done; by apply prefix_app_r.
Qed.

Lemma run_appends (rt : archive.tarRuntime) (order : list string) :
  ∀ context disk,
    same_settings context (archive.run env Parse rt order context disk).1.1
    ∧ ctx.Artifacts_ context
        `prefix_of` ctx.Artifacts_ (archive.run env Parse rt order context disk).1.1
    ∧ disk `prefix_of` (archive.run env Parse rt order context disk).1.2.
Proof.
  induction order as [|k order IH]; intros context disk; simpl; [done|].
  destruct (archive.newSingleTarget env Parse rt context k); [|done..].
  pose proof (singleTarget_run_appends a context disk) as H.
  destruct (archive.singleTarget_run env a context disk)
    as [[c1 d1] [[]|e| |]]; [|done..].
  simpl in H. destruct H as ((HP & HV & HT & HPub) & Ha & Hd).
  destruct (IH c1 d1) as ((HP' & HV' & HT' & HPub') & Ha' & Hd').
  split; [|split]; [|by etrans..].
  unfold same_settings. by rewrite HP', HV', HT', HPub'.
Qed.


End TargetFacts.

Section DirectoryFacts.

Variable env : Env.

Lemma writeDir_written TargetDir d st :
  dir_written st d → archive.writeDir env TargetDir d st = (st, Ok ()).
Proof. unfold dir_written, archive.writeDir. by intros [b ->]. Qed.

Lemma writeDir_dirs TargetDir d st :
  (∀ d', dir_written st d' →
         dir_written (archive.writeDir env TargetDir d st).1 d')
  ∧ ((archive.writeDir env TargetDir d st).2 = Ok () →
     dir_written (archive.writeDir env TargetDir d st).1 d).
Proof.
  unfold archive.writeDir, dir_written.
  destruct (archive.tDirsWritten st.1 !! d) eqn:Hd.
  { simpl. split; [done|]. intros _. by rewrite Hd. }
  unfold archive.bind, archive.of_sum, archive.of_outcome, archive.fail,
    archive.ret, archive.tw_WriteHeader.
  destruct st as [t tw]. simpl in *.
  destruct (os_Stat env TargetDir); simpl; [|done].
  destruct (tar.FileInfoHeader _); simpl; [|done..].
  destruct (tar.WriteHeader _ _) as [tw' [e|]]; simpl; [done|].
  split.
  - intros d' Hd'. destruct (decide (d = d')) as [->|Hne].
    + by rewrite lookup_insert_eq.
    + by rewrite lookup_insert_ne.
  - intros _. by rewrite lookup_insert_eq.
Qed.

Lemma forM_writeDir_dirs TargetDir (pre : string → string) (l : list string) :
  ∀ st,
    (∀ d', dir_written st d' →
       dir_written
         (archive.forM_ (λ d, archive.wrap (pre d) (archive.writeDir env TargetDir d))
            l st).1 d')
    ∧ ((archive.forM_ (λ d, archive.wrap (pre d) (archive.writeDir env TargetDir d))
          l st).2 = Ok () →
       ∀ d, d ∈ l →
         dir_written
           (archive.forM_ (λ d, archive.wrap (pre d) (archive.writeDir env TargetDir d))
              l st).1 d).
Proof.
  induction l as [|d l IH]; intros st; simpl.
  - split; [done|]. by intros _ d ?%not_elem_of_nil.
  - unfold archive.bind, archive.wrap.
    destruct (writeDir_dirs TargetDir d st) as [Hmono Hmark].
    destruct (archive.writeDir env TargetDir d st) as [st1 [[]|e| |]];
      simpl in *; [|by split..].
    destruct (IH st1) as [Hmono' Hmark']. split; [by auto|].
    intros HOk d' [->|Hd']%elem_of_cons; [|by auto].
    apply Hmono'. by apply Hmark.
Qed.

Lemma forM_writeDir_written TargetDir (pre : string → string) (l : list string) st :
  (∀ d, d ∈ l → dir_written st d) →
  archive.forM_ (λ d, archive.wrap (pre d) (archive.writeDir env TargetDir d)) l st
  = (st, Ok ()).
Proof.
  induction l as [|d l IH]; intros Hall; [done|]. simpl.
  unfold archive.bind, archive.wrap.
  rewrite writeDir_written by (apply Hall; left).
  apply IH. intros d' Hd'. apply Hall. by right.
Qed.

(** X19.  [writeDirs] twice for the same path is [writeDirs] once: when
    the first call has succeeded, the directory and all its ancestors
    are marked as written, and the second call writes no header and
    changes nothing; when the first call has not succeeded, its result
    stands. *)
Theorem writeDirs_twice_is_once (TargetDir fullpath : string) (st : archive.St) :
  archive.bind (archive.writeDirs env TargetDir fullpath)
    (λ _, archive.writeDirs env TargetDir fullpath) st
  = archive.writeDirs env TargetDir fullpath st.
Proof.
  unfold archive.writeDirs.
  destruct (String.eqb fullpath "."); [done|].
  destruct (archive.ancestors _ _) as [up|]; [|done].
  unfold archive.bind at 1.
  pose proof (forM_writeDir_dirs TargetDir
                (λ dirname, "cannot create directory " +:+ dirname +:+ ": ")
                (reverse (fullpath :: up)) st) as [_ Hmark].
  destruct (archive.forM_ _ _ st) as [st1 [[]|e| |]]; [|done..].
  simpl in Hmark. by apply forM_writeDir_written, Hmark.
Qed.

End DirectoryFacts.

Section DiagnosticFacts.

Implicit Types (builds : gmap string ctx.Artifacts).

Lemma insert_sorted_Permutation x l : gostd.insert_sorted x l ≡ₚ x :: l.
Proof.
  induction l as [|y l IH]; [done|]. simpl.
  destruct (String.leb x y); [done|]. by rewrite IH, Permutation_swap.
Qed.

Lemma sort_Strings_Permutation l : gostd.sort_Strings l ≡ₚ l.
Proof.
  induction l as [|x l IH]; [done|]. unfold gostd.sort_Strings in *. simpl.
  by rewrite insert_sorted_Permutation, IH.
Qed.

Lemma insert_sorted_ascending x l :
  ascending l = true → ascending (gostd.insert_sorted x l) = true.
Proof.
  induction l as [|y l IH]; [done|]. intros Hl. simpl.
  destruct (String.leb x y) eqn:E.
  - simpl. by rewrite E.
  - assert (String.leb y x = true) as Hyx
      by (destruct (String.leb_total x y); congruence).
    destruct l as [|z l]; simpl in *; [by rewrite Hyx|].
    apply andb_true_iff in Hl as [Hyz Hl]. specialize (IH Hl).
    destruct (String.leb x z); simpl in *.
    + by rewrite Hyx.
    + by rewrite Hyz.
Qed.

Lemma sort_Strings_ascending l : ascending (gostd.sort_Strings l) = true.
Proof.
  induction l as [|x l IH]; [done|]. unfold gostd.sort_Strings in *. simpl.
  by apply insert_sorted_ascending.
Qed.

Lemma fold_insert_lookup (v : bool) (l : ctx.Artifacts) :
  ∀ (t : gmap string bool) x,
    fold_left (λ (t : gmap string bool) art, <[ctx.OsArch art := v]> t) l t !! x
    = if decide (x ∈ ctx.OsArch <$> l) then Some v else t !! x.
Proof.
  induction l as [|a l IH]; intros t x.
  - simpl. destruct (decide (x ∈ [])) as [H|_]; [|done].
    by apply not_elem_of_nil in H.
  - cbn [fold_left]. rewrite IH. rewrite fmap_cons.
    destruct (decide (x ∈ ctx.OsArch <$> l)) as [Hin|Hn].
    + by rewrite decide_True by (by right).
    + destruct (decide (ctx.OsArch a = x)) as [<-|Hne].
      * rewrite lookup_insert_eq. by rewrite decide_True by left.
      * rewrite lookup_insert_ne by done. rewrite decide_False; [done|].
        intros [?|?]%elem_of_cons; congruence.
Qed.

Lemma keys_with_value (t : gmap string bool) (v : bool) :
  NoDup ((filter (λ kv : string * bool, kv.2 = v) (map_to_list t)).*1)
  ∧ ∀ x, x ∈ (filter (λ kv : string * bool, kv.2 = v) (map_to_list t)).*1
         ↔ t !! x = Some v.
Proof.
  split.
  - eapply sublist_NoDup; [apply (NoDup_fst_map_to_list t)|].
    apply fmap_sublist, sublist_filter.
  - intros x. rewrite list_elem_of_fmap. split.
    + intros [[k b] [-> [Hb Hin]%list_elem_of_filter]]. simpl in *.
      apply elem_of_map_to_list in Hin. by rewrite <- Hb.
    + intros Hx. exists (x, v). split; [done|].
      apply list_elem_of_filter. split; [done|].
      by apply elem_of_map_to_list.
Qed.

(** X20.  What [errNumTargets] reports for any map and any two keys,
    provided the good key has artifacts: the os-arch values of the good
    entry's artifacts that no artifact of the bad entry has, each once
    and in ascending order.  The message starts
    ["build <bad> is missing os-arch target"], or
    ["no targets found for build"] when the bad entry is absent or
    empty, and has the plural [s] unless exactly one value is listed. *)
Theorem errNumTargets_reports_difference builds (bad good : string)
    (goodArts : ctx.Artifacts)
    (Hgood : builds !! good = Some goodArts)
    (Hne : goodArts ≠ []) :
  ∃ goodTargets,
    ascending goodTargets = true
    ∧ NoDup goodTargets
    ∧ (∀ x, x ∈ goodTargets ↔
            x ∈ ctx.OsArch <$> goodArts
            ∧ x ∉ ctx.OsArch <$> default [] (builds !! bad))
    ∧ (default [] (builds !! bad) = [] →
       archive.errNumTargets bad good builds
       = "no targets found for build" +:+ archive.plural goodTargets +:+ " "
           +:+ gostd.Join goodTargets ", ")
    ∧ (default [] (builds !! bad) ≠ [] →
       archive.errNumTargets bad good builds
       = "build " +:+ bad +:+ " is missing os-arch target"
           +:+ archive.plural goodTargets +:+ " "
           +:+ gostd.Join goodTargets ", ").
Proof.
  unfold archive.errNumTargets.
  rewrite bool_decide_eq_false_2.
  2:{ intros ->%map_size_empty_inv. by rewrite lookup_empty in Hgood. }
  rewrite Hgood. destruct goodArts as [|g0 goodArts']; [done|].
  set (goodArts := g0 :: goodArts') in *.
  set (t1 := fold_left _ goodArts ∅).
  set (t := match builds !! bad with Some badArts => _ | None => t1 end).
  assert (∀ x, t !! x =
               if decide (x ∈ ctx.OsArch <$> default [] (builds !! bad))
               then Some false
               else if decide (x ∈ ctx.OsArch <$> goodArts) then Some true
                    else None) as Ht.
  { intros x. subst t t1. destruct (builds !! bad) as [badArts|].
    - change (default [] (Some badArts)) with badArts.
      rewrite !fold_insert_lookup. by rewrite lookup_empty.
    - change (default [] (@None ctx.Artifacts)) with (@nil ctx.Artifact).
      rewrite fold_insert_lookup, lookup_empty.
      destruct (decide (x ∈ ctx.OsArch <$> [])) as [H|_]; [|done].
      by apply not_elem_of_nil in H. }
  clearbody t. clear t1.
  destruct (keys_with_value t true) as [Hnd Hin].
  destruct (keys_with_value t false) as [_ Hbad].
  set (gl := (filter (λ kv : string * bool, kv.2 = true) (map_to_list t)).*1) in *.
  set (bl := (filter (λ kv : string * bool, kv.2 = false) (map_to_list t)).*1) in *.
  exists (gostd.sort_Strings gl).
  split; [apply sort_Strings_ascending|].
  split; [by rewrite sort_Strings_Permutation|].
  split.
  { intros x. rewrite sort_Strings_Permutation, Hin, Ht.
    destruct (decide (x ∈ ctx.OsArch <$> default [] (builds !! bad)))
      as [Hb|Hb].
    { split; [done|]. by intros [_ ?]. }
    destruct (decide (x ∈ ctx.OsArch <$> goodArts)) as [Hg|Hg].
    - done.
    - split; [done|]. by intros [? _]. }
  split.
  - intros Hb. rewrite bool_decide_eq_true_2; [done|].
    assert (bl = []) as Hbl.
    { apply elem_of_nil_inv. intros x. rewrite Hbad, Ht, Hb. simpl.
      destruct (decide (x ∈ [])) as [H|_]; [by apply not_elem_of_nil in H|].
      by destruct (decide _). }
    rewrite (Permutation_length (sort_Strings_Permutation bl)).
    by rewrite Hbl.
  - intros Hb. rewrite bool_decide_eq_false_2; [done|].
    rewrite (Permutation_length (sort_Strings_Permutation bl)).
    destruct (default [] (builds !! bad)) as [|b0 bs] eqn:E; [done|].
    assert (ctx.OsArch b0 ∈ bl) as Hb0.
    { apply Hbad. rewrite Ht. by rewrite decide_True by (simpl; left). }
    destruct bl; [by apply not_elem_of_nil in Hb0|done].
Qed.

Lemma elem_of_selected (archive : archive.Tar) (context : ctx.Context) a :
  a ∈ selected archive context
  ↔ a ∈ ctx.Artifacts_ context ∧ ctx.Name a ∈ archive.Builds archive.
Proof.
  unfold selected. induction (archive.Builds archive) as [|b bs IH]; simpl.
  - split; [by intros ?%not_elem_of_nil|]. by intros [_ ?%not_elem_of_nil].
  - rewrite elem_of_app, IH. unfold ctx.ByName. rewrite list_elem_of_filter.
    rewrite elem_of_cons. tauto.
Qed.

(** X21.  The groups of [newRuntime] by their members: an artifact is in
    the group of a key exactly when it is in the store, its name is one
    of [Builds], and its os-arch pair spells the key; no key of a group
    is in [Skip]; and every artifact of the store with a name in
    [Builds] and an os-arch pair outside [Skip] is in the group of its
    pair. *)
Theorem group_builds_members (archive : archive.Tar) (context : ctx.Context) :
  (∀ k g,
     archive.group_builds archive context !! k = Some g →
     (k ∉ archive.Skip archive)
     ∧ ∀ a, a ∈ g ↔ a ∈ ctx.Artifacts_ context
                    ∧ ctx.Name a ∈ archive.Builds archive
                    ∧ ctx.OsArch a = k)
  ∧ (∀ a,
       a ∈ ctx.Artifacts_ context →
       ctx.Name a ∈ archive.Builds archive →
       ctx.OsArch a ∉ archive.Skip archive →
       ∃ g, archive.group_builds archive context !! ctx.OsArch a = Some g
            ∧ a ∈ g).
Proof.
  split.
  - intros k g. rewrite group_builds_lookup.
    destruct (decide (k ∈ archive.Skip archive)); [done|].
    destruct (group_of archive context k) eqn:E; [done|]. intros [= <-].
    split; [done|]. intros x. rewrite <- E. unfold group_of.
    rewrite list_elem_of_filter, elem_of_selected. tauto.
  - intros a Ha Hn Hs. rewrite group_builds_lookup.
    rewrite decide_False by done.
    assert (a ∈ group_of archive context (ctx.OsArch a)) as Hin.
    { unfold group_of. apply list_elem_of_filter. split; [done|].
      by apply elem_of_selected. }
    destruct (group_of archive context (ctx.OsArch a)) as [|g0 g] eqn:E;
      [by apply not_elem_of_nil in Hin|].
    by eexists.
Qed.

End DiagnosticFacts.

Section ArchiveFacts.

Variable env : Env.
Variable Parse : archive.TemplateData → string → string → string + error.

Implicit Types (target : archive.singleTarget) (context : ctx.Context).
Implicit Types (disk : archive.Disk).

Lemma forM_Ok_inv {A} (Q : archive.St → Prop) (f : A → archive.M unit) l :
  (∀ a st st', Q st → f a st = (st', Ok ()) → Q st') →
  ∀ st st', Q st → archive.forM_ f l st = (st', Ok ()) → Q st'.
Proof.
  intros Hf. induction l as [|a l IH]; intros st st' HQ H; simpl in H.
  - unfold archive.ret in H. by simplify_eq.
  - unfold archive.bind in H.
    destruct (f a st) as [st1 [[]|e| |]] eqn:Hfa; [|done..].
    eapply IH; [|done]. by eapply Hf.
Qed.

Lemma wrap_Ok_inv {A} pre (m : archive.M A) st st' a :
  archive.wrap pre m st = (st', Ok a) → m st = (st', Ok a).
Proof.
  unfold archive.wrap. destruct (m st) as [st1 [a'|e| |]]; by intros; simplify_eq.
Qed.

Lemma bind_Ok_inv {A B} (m : archive.M A) (k : A → archive.M B) st st' b :
  archive.bind m k st = (st', Ok b) →
  ∃ st1 a, m st = (st1, Ok a) ∧ k a st1 = (st', Ok b).
Proof.
  unfold archive.bind. destruct (m st) as [st1 [a|e| |]]; [|done..]. eauto.
Qed.

Lemma of_sum_Ok_inv {A} (r : A + error) st st' a :
  archive.of_sum r st = (st', Ok a) → r = inl a ∧ st' = st.
Proof.
  destruct r; unfold archive.of_sum, archive.ret, archive.fail;
    intros; by simplify_eq.
Qed.

Lemma of_outcome_Ok_inv {A} (r : outcome A) st st' a :
  archive.of_outcome r st = (st', Ok a) → r = Ok a ∧ st' = st.
Proof. unfold archive.of_outcome. intros. by simplify_eq. Qed.

(** When the file system is consistent, a successful [writeFile] leaves
    the writer expecting nothing. *)
Lemma writeFile_Ok_flushed destpath source st st' :
  sizes_agree env →
  archive.writeFile env destpath source st = (st', Ok ()) →
  tar.nb st'.2 = 0.
Proof.
  intros Hagree H. unfold archive.writeFile in H.
  apply bind_Ok_inv in H as (s1 & fi & [Hs ->]%wrap_Ok_inv%of_sum_Ok_inv & H).
  apply bind_Ok_inv in H as (s2 & hdr & [Hh ->]%of_outcome_Ok_inv & H).
  apply bind_Ok_inv in H as (s3 & [] & Hw & H).
  apply bind_Ok_inv in H as (s4 & [content rerr] & [Ho ->]%of_sum_Ok_inv & H).
  apply bind_Ok_inv in H as (s5 & [n werr] & Hc & H).
  destruct st as [t tw], s3 as [t3 tw3], s5 as [t5 tw5].
  unfold archive.tw_WriteHeader, tar.WriteHeader in Hw.
  destruct (tar.Flush tw); simplify_eq.
  unfold archive.CopyBuffer, tar.Write in Hc. simpl in Hc.
  destruct (tar.hSize hdr <? Z.of_nat (length content)) eqn:E;
    simpl in Hc; simplify_eq; simpl in H;
    unfold archive.ret, archive.fail in H; try done.
  destruct werr; simplify_eq. simpl. apply Z.ltb_ge in E.
  unfold tar.FileInfoHeader in Hh.
  destruct (tar.fiKind fi) eqn:Hk; simplify_eq; simpl in *; [|lia..].
  pose proof (Hagree _ _ _ _ Hs Ho Hk). lia.
Qed.

Lemma writeArtifact_Ok_flushed TargetDir artifact st st' :
  sizes_agree env →
  archive.writeArtifact env TargetDir artifact st = (st', Ok ()) →
  tar.nb st'.2 = 0.
Proof.
  intros Hagree. unfold archive.writeArtifact.
  intros (st1 & [] & _ & H)%bind_Ok_inv. by eapply writeFile_Ok_flushed.
Qed.

Lemma writeFileGlob_Ok_flushed TargetDir source st st' :
  sizes_agree env → tar.nb st.2 = 0 →
  archive.writeFileGlob env TargetDir source st = (st', Ok ()) →
  tar.nb st'.2 = 0.
Proof.
  intros Hagree Hst. unfold archive.writeFileGlob.
  intros (st1 & matches & Hg & H)%bind_Ok_inv.
  unfold archive.of_sum in Hg.
  destruct (filepath_Glob env source); unfold archive.ret, archive.fail in Hg;
    simplify_eq.
  revert H. apply (forM_Ok_inv (λ s, tar.nb s.2 = 0)); [|done].
  intros f s s' _ (s1 & [] & _ & H)%bind_Ok_inv.
  by eapply writeFile_Ok_flushed.
Qed.

Lemma singleTarget_run_whole target context disk context' disk' :
  nonneg_sizes env → sizes_agree env →
  archive.singleTarget_run env target context disk = (context', disk', Ok ()) →
  ∃ file, disk' = disk ++ [(archive.tOutput target, file)]
          ∧ tar.well_formed (archive.afTar file) = true.
Proof.
  intros Hnn Hagree. unfold archive.singleTarget_run.
  destruct (os_Create env _); [done|].
  set (body := archive.bind _ _).
  assert (keeps writer_ok body) as Hbody.
  { apply keeps_bind.
    - apply keeps_wrap, keeps_forM_. intros a. by apply keeps_writeArtifact.
    - intros _. apply keeps_wrap, keeps_forM_. intros f.
      by apply keeps_writeFileGlob. }
  specialize (Hbody (target, tar.NewWriter)).
  destruct (body (target, tar.NewWriter)) as [[t tw] r] eqn:Hb.
  destruct Hbody as [Hinv Htr]; [split; [by left|done]|]. simpl in Hinv, Htr.
  destruct r as [[]|e| |]; intros; simplify_eq.
  eexists. split; [done|]. simpl.
  assert (tar.nb tw = 0) as H0.
  { subst body.
    apply bind_Ok_inv in Hb as (st1 & [] & H1%wrap_Ok_inv & H2%wrap_Ok_inv).
    assert (tar.nb st1.2 = 0) as Hst1.
    { revert H1. apply (forM_Ok_inv (λ s, tar.nb s.2 = 0)); [|done].
      intros a s s' _. by apply writeArtifact_Ok_flushed. }
    change tw with (t, tw).2. revert H2.
    apply (forM_Ok_inv (λ s, tar.nb s.2 = 0)); [|done].
    intros f s s'. by apply writeFileGlob_Ok_flushed. }
  unfold tar.Close, tar.Flush, tar.well_formed. rewrite H0. simpl.
  rewrite andb_true_r.
  destruct Hinv as [[-> _]|(es & e & -> & Hes & Hnb & _)]; [done|].
  apply forallb_forall. intros x [Hx|Hx]%in_app_or.
  - rewrite Forall_forall in Hes. apply Hes. by apply list_elem_of_In.
  - destruct Hx as [<-|[]]. apply bool_decide_eq_true_2. lia.
Qed.

Lemma run_whole (rt : archive.tarRuntime) (order : list string) :
  nonneg_sizes env → sizes_agree env →
  ∀ context disk context' disk',
    archive.run env Parse rt order context disk = (context', disk', Ok ()) →
    ∃ files, disk' = disk ++ files
             ∧ length files = length order
             ∧ Forall (λ f, tar.well_formed (archive.afTar f.2) = true) files.
Proof.
  intros Hnn Hagree. induction order as [|k order IH];
    intros context disk context' disk' H; simpl in H.
  - simplify_eq. exists []. by rewrite app_nil_r.
  - destruct (archive.newSingleTarget env Parse rt context k)
      as [target|e| |]; simplify_eq.
    destruct (archive.singleTarget_run env target context disk)
      as [[c1 d1] [[]|e| |]] eqn:Hr; simplify_eq.
    apply singleTarget_run_whole in Hr as (file & -> & Hwf); [|done..].
    apply IH in H as (files & -> & Hlen & Hall).
    exists ((archive.tOutput target, file) :: files).
    split; [by rewrite <- app_assoc|]. split; [simpl; lia|]. by constructor.
Qed.

(** X22.  On a file system where no size is negative and every regular
    file reads back with the number of bytes [os.Stat] reports, a run
    of the Tar module that returns without an error has created one
    file per platform group, and each of them is a whole archive: every
    member has the bytes its header announces and the trailer is
    there. *)
Theorem Run_on_consistent_files_gives_whole_archives (archive : archive.Tar)
    (order1 order2 : list string) context disk context' disk'
    (Hsizes : nonneg_sizes env)
    (Hagree : sizes_agree env)
    (Hrun : archive.Run env Parse archive order1 order2 context disk
            = (context', disk', Ok ())) :
  ∃ files,
    disk' = disk ++ files
    ∧ length files = length order2
    ∧ Forall (λ f, tar.well_formed (archive.afTar f.2) = true) files.
Proof.
  unfold archive.Run in Hrun.
  destruct (archive.newRuntime archive context order1); simplify_eq.
  by eapply run_whole.
Qed.

End ArchiveFacts.

Section MemberOrderFacts.

Variable env : Env.

Lemma member_names_append_data es bs :
  member_names (tar.append_data es bs) = member_names es.
Proof.
  unfold tar.append_data. destruct (reverse es) as [|e before] eqn:E.
  - apply (f_equal reverse) in E. rewrite reverse_involutive in E. by subst.
  - apply (f_equal reverse) in E. rewrite reverse_involutive in E. subst.
    rewrite reverse_cons. unfold member_names. by rewrite !map_app.
Qed.

Lemma keeps_headers_WriteHeader hdr :
  keeps dirs_have_headers (archive.tw_WriteHeader hdr).
Proof.
  intros [t tw] HJ. unfold archive.tw_WriteHeader, tar.WriteHeader.
  destruct (tar.Flush tw); [done|]. intros d Hd. simpl.
  unfold member_names. rewrite map_app, elem_of_app. left. by apply HJ.
Qed.

Lemma keeps_headers_CopyBuffer src :
  keeps dirs_have_headers (archive.CopyBuffer src).
Proof.
  intros [t tw] HJ. unfold archive.CopyBuffer.
  destruct (tar.Write tw src.1) as [tw' [n [e|]]] eqn:HW;
    unfold tar.Write in HW; simplify_eq; intros d Hd; simpl;
    rewrite member_names_append_data; by apply HJ.
Qed.

Lemma keeps_headers_writeFile destpath source :
  keeps dirs_have_headers (archive.writeFile env destpath source).
Proof.
  unfold archive.writeFile.
  apply keeps_bind; [apply keeps_wrap, keeps_of_sum|]. intros fi.
  apply keeps_bind; [apply keeps_of_outcome|]. intros hdr.
  apply keeps_bind; [apply keeps_headers_WriteHeader|]. intros _.
  apply keeps_bind; [apply keeps_of_sum|]. intros r.
  apply keeps_bind; [apply keeps_headers_CopyBuffer|].
  intros [n [err|]]; [apply keeps_fail|apply keeps_ret].
Qed.

Lemma keeps_headers_writeDir TargetDir dirname :
  keeps dirs_have_headers (archive.writeDir env TargetDir dirname).
Proof.
  intros st HJ. unfold archive.writeDir.
  destruct (archive.tDirsWritten st.1 !! dirname) eqn:Hd; [done|].
  unfold archive.bind, archive.of_sum, archive.of_outcome, archive.fail,
    archive.ret, archive.tw_WriteHeader.
  destruct st as [t tw]. simpl in *.
  destruct (os_Stat env TargetDir); simpl; [|done].
  destruct (tar.FileInfoHeader _); simpl; [|done..].
  unfold tar.WriteHeader. destruct (tar.Flush tw); simpl; [done|].
  intros d Hd'. unfold dir_written in Hd'. simpl in *.
  unfold member_names. rewrite map_app, elem_of_app.
  destruct (decide (dirname = d)) as [->|Hne].
  - right. simpl. left.
  - left. apply HJ. unfold dir_written. simpl.
    by rewrite lookup_insert_ne in Hd'.
Qed.

Lemma keeps_headers_writeDirs TargetDir fullpath :
  keeps dirs_have_headers (archive.writeDirs env TargetDir fullpath).
Proof.
  unfold archive.writeDirs.
  destruct (String.eqb fullpath "."); [apply keeps_ret|].
  destruct (archive.ancestors _ _); [|apply keeps_of_outcome].
  apply keeps_forM_. intros d. apply keeps_wrap, keeps_headers_writeDir.
Qed.

Lemma writeDirs_Ok_written TargetDir fullpath st st' :
  archive.writeDirs env TargetDir fullpath st = (st', Ok ()) →
  fullpath ≠ "." →
  ∃ up, archive.ancestors (S (String.length fullpath)) fullpath = Some up
        ∧ ∀ d, d ∈ fullpath :: up → dir_written st' d.
Proof.
  unfold archive.writeDirs. intros H Hne.
  rewrite (proj2 (String.eqb_neq _ _) Hne) in H.
  destruct (archive.ancestors _ _) as [up|]; [|done].
  exists up. split; [done|]. intros d Hd.
  pose proof (forM_writeDir_dirs env TargetDir
                (λ dirname, "cannot create directory " +:+ dirname +:+ ": ")
                (reverse (fullpath :: up)) st) as [_ Hmark].
  rewrite H in Hmark. apply Hmark; [done|]. by apply elem_of_reverse.
Qed.

Lemma writeFile_Ok_member destpath source st st' :
  archive.writeFile env destpath source st = (st', Ok ()) →
  ∃ e, tar.entries st'.2 = tar.entries st.2 ++ [e]
       ∧ tar.hName (tar.eHeader e) = destpath
       ∧ st'.1 = st.1.
Proof.
  intros H. unfold archive.writeFile in H.
  apply bind_Ok_inv in H as (s1 & fi & [Hs ->]%wrap_Ok_inv%of_sum_Ok_inv & H).
  apply bind_Ok_inv in H as (s2 & hdr & [Hh ->]%of_outcome_Ok_inv & H).
  apply bind_Ok_inv in H as (s3 & [] & Hw & H).
  apply bind_Ok_inv in H as (s4 & [content rerr] & [Ho ->]%of_sum_Ok_inv & H).
  apply bind_Ok_inv in H as (s5 & [n werr] & Hc & H).
  destruct st as [t tw], s3 as [t3 tw3], s5 as [t5 tw5].
  unfold archive.tw_WriteHeader, tar.WriteHeader in Hw.
  destruct (tar.Flush tw); simplify_eq.
  unfold archive.CopyBuffer, tar.Write in Hc. simpl in Hc.
  destruct (tar.hSize hdr <? Z.of_nat (length content)) eqn:E;
    simpl in Hc; simplify_eq; simpl in H;
    unfold archive.ret, archive.fail in H; try done.
  destruct werr; simplify_eq. simpl. rewrite append_data_last.
  by eexists.
Qed.

(** X23.  A member written by [writeArtifact] comes after the headers of
    its directories: when the call starts in a state where every
    directory marked as written has its header in the archive and it
    succeeds, the archive has gained the file as its last member, under
    the name [path.Join(CommonDir, ...)], and, unless that name has no
    directory part, the directory of the name and each of its ancestors
    has a header among the members before it. *)
Theorem writeArtifact_member_follows_directories (TargetDir : string)
    (artifact : ctx.Artifact) (st st' : archive.St)
    (Hheaders : dirs_have_headers st)
    (Hrun : archive.writeArtifact env TargetDir artifact st = (st', Ok ())) :
  ∃ es e,
    tar.entries st'.2 = es ++ [e]
    ∧ tar.hName (tar.eHeader e)
      = gostd.path_Join
          [archive.tCommonDir st.1;
           gostd.TrimPrefix (ctx.Filename artifact)
             (ctx.Location artifact +:+ "/")]
    ∧ (gostd.Dir (tar.hName (tar.eHeader e)) ≠ "." →
       ∃ up,
         archive.ancestors
           (S (String.length (gostd.Dir (tar.hName (tar.eHeader e)))))
           (gostd.Dir (tar.hName (tar.eHeader e))) = Some up
         ∧ ∀ d, d ∈ gostd.Dir (tar.hName (tar.eHeader e)) :: up →
                (d +:+ "/") ∈ member_names es)
    ∧ dirs_have_headers st'.
Proof.
  unfold archive.writeArtifact in Hrun.
  apply bind_Ok_inv in Hrun as (s1 & [] & Hdirs & Hfile).
  match type of Hdirs with
  | archive.writeDirs _ ?td ?p _ = _ =>
      pose proof (keeps_headers_writeDirs td p st Hheaders) as HJ1
  end.
  rewrite Hdirs in HJ1. simpl in HJ1.
  match type of Hfile with
  | archive.writeFile _ ?d ?src _ = _ =>
      pose proof (keeps_headers_writeFile d src s1 HJ1) as HJ'
  end.
  rewrite Hfile in HJ'. simpl in HJ'.
  apply writeFile_Ok_member in Hfile as (e & He & Hname & _).
  exists (tar.entries s1.2), e. split; [done|]. split; [done|].
  split; [|done]. rewrite Hname. intros Hne.
  destruct (writeDirs_Ok_written _ _ _ _ Hdirs Hne) as (up & Hup & Hall).
  exists up. split; [done|]. intros d Hd. apply HJ1. by apply Hall.
Qed.

End MemberOrderFacts.

Section CompositionFacts.

Context {W : Type}.
Variable registry : gmap string (modules.PluggableFactory W).

(** X24.  With no configuration node, [Add] does not consult the
    decoder: its result is the same under any two decoders, and on
    success the module appended is the product of the registered
    factory as it is, under the requested type. *)
Theorem Add_without_node_keeps_factory_default
    (Decode Decode' : yaml.Node → modules.Pluggable W → modules.Pluggable W + error)
    (mod_ : modules.Modules W) (itemType : string) (once : bool) :
  modules.Add registry Decode mod_ itemType None once
  = modules.Add registry Decode' mod_ itemType None once
  ∧ ((modules.Add registry Decode mod_ itemType None once).2 = None →
     ∃ kind f,
       resolves_to registry mod_ itemType kind
       ∧ modules.probe registry [modules.Stage mod_; "*"] itemType ""
         = (kind, Some f)
       ∧ modules.Modules_ (modules.Add registry Decode mod_ itemType None once).1
         = modules.Modules_ mod_
             ++ [{| modules.Type_ := itemType; modules.Pluggable_ := f () |}]).
Proof.
  split; [done|]. intros H.
  destruct (modules.Add registry Decode mod_ itemType None once)
    as [mod' [e|]] eqn:HA; [done|].
  apply Add_success in HA as (kind & f & t & Hp & Hd & ->).
  exists kind, f. split; [by exists f|]. split; [done|]. by simplify_eq.
Qed.

(** X25.  Running the modules [before ++ after] of a stage is running
    [before] and, if that returned without an error, running [after]
    from the state [before] left; otherwise the result of [before]
    stands and [after] is not run. *)
Theorem run_from_app (stage : string) (before after : list (modules.Module W))
    (st : modules.State W) :
  modules.run_from stage (before ++ after) st
  = match modules.run_from stage before st with
    | (st1, Ok _) => modules.run_from stage after st1
    | other => other
    end.
Proof.
  revert st. induction before as [|m before IH]; intros st; [done|].
  simpl. destruct (modules.Run (modules.Pluggable_ m) _ _) as [[c w] [[]|e| |]];
    [|done..].
  apply IH.
Qed.

End CompositionFacts.

Section RunCompositionFacts.

Variable env : Env.
Variable Parse : archive.TemplateData → string → string → string + error.

Implicit Types (context : ctx.Context) (disk : archive.Disk).

Lemma archive_run_app (rt : archive.tarRuntime) (before after : list string) :
  ∀ context disk,
    archive.run env Parse rt (before ++ after) context disk
    = match archive.run env Parse rt before context disk with
      | (c1, d1, Ok _) => archive.run env Parse rt after c1 d1
      | other => other
      end.
Proof.
  induction before as [|k before IH]; intros context disk; [done|]. simpl.
  destruct (archive.newSingleTarget env Parse rt context k); [|done..].
  destruct (archive.singleTarget_run env a context disk)
    as [[c1 d1] [[]|e| |]]; [|done..].
  apply IH.
Qed.

(** X26.  The validation comes before any file: when two groups differ
    in their number of artifacts, the run of the Tar module returns an
    error with the Build Context and the disk exactly as they were. *)
Theorem Run_validation_failure_writes_nothing (archive : archive.Tar)
    (order1 order2 : list string) context disk
    (Horder : archive.range_order (archive.group_builds archive context) order1)
    (Hdiffer : ∃ k1 k2 g1 g2,
        archive.group_builds archive context !! k1 = Some g1 ∧
        archive.group_builds archive context !! k2 = Some g2 ∧
        length g1 ≠ length g2) :
  ∃ e, archive.Run env Parse archive order1 order2 context disk
       = (context, disk, Err e).
Proof.
  unfold archive.Run, archive.newRuntime.
  destruct (check_counts_start (archive.group_builds archive context) order1
              (group_builds_nonempty archive context)
              (λ k, proj1 (range_order_elem_of _ _ k Horder)))
    as [[_ Hall]|[HErr _]].
  - destruct Hdiffer as (k1 & k2 & g1 & g2 & Hg1 & Hg2 & Hlen). exfalso.
    apply Hlen. apply (Hall k1 k2); [| |done..];
      by apply (range_order_elem_of _ _ _ Horder).
  - destruct (archive.check_counts _ order1 0 "") as [[]|e| |]; try done.
    by exists e.
Qed.

(** X27.  A target that fails ends the run of the runtime: the targets
    after it are not built, the error is the one of the failing target,
    and the Build Context is the one the targets before it left, with
    their archives registered. *)
Theorem run_stops_at_first_failing_target (rt : archive.tarRuntime)
    (before after : list string) (osarch : string)
    context disk (c1 c2 : ctx.Context) (d1 d2 : archive.Disk) (e : error)
    (Hbefore : archive.run env Parse rt before context disk = (c1, d1, Ok ()))
    (Hfail : archive.run env Parse rt [osarch] c1 d1 = (c2, d2, Err e)) :
  archive.run env Parse rt (before ++ osarch :: after) context disk
  = (c1, d2, Err e)
  ∧ ctx.Artifacts_ context `prefix_of` ctx.Artifacts_ c1
  ∧ length (ctx.Artifacts_ c1)
    = (length (ctx.Artifacts_ context) + length before)%nat.
Proof.
  rewrite archive_run_app, Hbefore.
  assert (archive.run env Parse rt (osarch :: after) c1 d1 = (c1, d2, Err e))
    as ->.
  { simpl in *.
    destruct (archive.newSingleTarget env Parse rt c1 osarch) as [t| | |];
      simplify_eq; [|done].
    pose proof (singleTarget_run_Err_context env t c1 d1) as Hsame.
    destruct (archive.singleTarget_run env t c1 d1) as [[c d] [[]|e'| |]];
      simplify_eq. simpl in Hsame. by rewrite Hsame. }
  split; [done|].
  pose proof (run_appends env Parse rt before context disk) as (_ & Hpre & _).
  rewrite Hbefore in Hpre. split; [done|].
  clear Hfail. revert context disk Hbefore Hpre.
  induction before as [|k before IH]; intros context disk Hbefore _;
    simpl in Hbefore.
  - simplify_eq. simpl. lia.
  - destruct (archive.newSingleTarget env Parse rt context k) as [t| | |];
      simplify_eq.
    destruct (archive.singleTarget_run env t context disk)
      as [[c d] [[]|e'| |]] eqn:Hr; simplify_eq.
    apply singleTarget_run_Ok in Hr as (_ & Harts & _).
    pose proof (run_appends env Parse rt before c d) as (_ & Hpre' & _).
    rewrite Hbefore in Hpre'.
    rewrite (IH c d Hbefore Hpre'), Harts, length_app. simpl. lia.
Qed.

End RunCompositionFacts.

(** ** The statements at concrete inputs *)

Lemma Add_once_twice_fails_witness :
  modules.Add scenario.registry scenario.decode_any scenario.build_once
    "dump" (Some (scenario.entry "dump")) true
  = (scenario.build_once, Some "module build:dump already loaded").
Proof.
  refine (proj1 (Add_once_twice_fails scenario.registry scenario.decode_any
                   (modules.NewModules "build") scenario.build_once
                   "dump" "build:dump" None _ _)
            "dump" (Some (scenario.entry "dump")) _).
  - vm_compute. reflexivity.
  - exists (λ _, scenario.fails). vm_compute. reflexivity.
  - exists (λ _, scenario.fails). vm_compute. reflexivity.
Defined.

Lemma Add_marks_kind_loaded_witness :
  modules.isLoaded scenario.build_declared "build:dump" = true
  ∧ ∀ calls itemType' node',
      resolves_to scenario.registry
        (Add_all scenario.registry scenario.decode_any scenario.build_declared calls)
        itemType' "build:dump" →
      modules.Add scenario.registry scenario.decode_any
        (Add_all scenario.registry scenario.decode_any scenario.build_declared calls)
        itemType' node' true
      = (Add_all scenario.registry scenario.decode_any scenario.build_declared calls,
         Some "module build:dump already loaded").
Proof.
  refine (Add_marks_kind_loaded scenario.registry scenario.decode_any
            (modules.NewModules "build") scenario.build_declared
            "dump" "build:dump" (Some (scenario.entry "dump")) false _ _).
  - vm_compute. reflexivity.
  - exists (λ _, scenario.fails). vm_compute. reflexivity.
Defined.

Lemma Run_skipped_stage_is_inert_witness :
  modules.Run_ scenario.publish_stage scenario.initial
  = ({| modules.context := scenario.uneven; modules.world := ();
        modules.log :=
          [modules.StageBegin "publish"; modules.StageSkipped;
           modules.StageEnd "publish"] |},
     Ok ()).
Proof.
  refine (Run_skipped_stage_is_inert scenario.publish_stage scenario.initial
            (λ c, negb (ctx.Publish c)) _ _).
  - reflexivity.
  - vm_compute. reflexivity.
Defined.

Lemma newRuntime_fails_iff_counts_differ_witness :
  is_Err (archive.newRuntime scenario.two_builds scenario.uneven
            ["linux-amd64"; "darwin-amd64"]) = true
  ↔ ∃ k1 k2 g1 g2,
      archive.group_builds scenario.two_builds scenario.uneven !! k1 = Some g1 ∧
      archive.group_builds scenario.two_builds scenario.uneven !! k2 = Some g2 ∧
      length g1 ≠ length g2.
Proof.
  refine (proj1 (proj2 (newRuntime_fails_iff_counts_differ
                          scenario.two_builds scenario.uneven
                          ["linux-amd64"; "darwin-amd64"] _))).
  vm_compute. reflexivity.
Defined.

Lemma newRuntime_groups_nonempty_witness :
  archive.empty_target
    {| archive.Tar_ := scenario.two_builds;
       archive.targets := archive.group_builds scenario.two_builds scenario.even |}
    "darwin-amd64" = false.
Proof.
  refine (proj1 (proj2 (newRuntime_groups_nonempty
                   scenario.two_builds scenario.even
                   ["linux-amd64"; "darwin-amd64"]
                   {| archive.Tar_ := scenario.two_builds;
                      archive.targets :=
                        archive.group_builds scenario.two_builds scenario.even |}
                   _ "darwin-amd64"
                   (default []
                      (archive.group_builds scenario.two_builds scenario.even
                         !! "darwin-amd64"))
                   _))).
  - vm_compute. reflexivity.
  - vm_compute. reflexivity.
Defined.

Lemma Run_without_groups_succeeds_witness :
  archive.Run scenario.cut_short scenario.literal scenario.skip_linux [] []
    scenario.one_build []
  = (scenario.one_build, [], Ok ()).
Proof.
  refine (Run_without_groups_succeeds scenario.cut_short scenario.literal
            scenario.skip_linux scenario.one_build [] [] [] _ _ _).
  - intros a Ha. vm_compute in Ha. apply list_elem_of_singleton in Ha as ->.
    vm_compute. left.
  - vm_compute. reflexivity.
  - vm_compute. reflexivity.
Defined.

Lemma uneven_groups_diagnostic_witness :
  archive.newRuntime scenario.two_builds scenario.uneven
    ["darwin-amd64"; "linux-amd64"]
  = Err "build darwin-amd64 is missing os-arch target linux-amd64".
Proof.
  refine (proj1 (uneven_groups_diagnostic ["darwin-amd64"; "linux-amd64"] _)).
  vm_compute. apply perm_swap.
Defined.

Lemma newRuntime_error_names_two_groups_witness :
  ∃ bad good gb gg,
    archive.group_builds scenario.two_builds scenario.uneven !! bad = Some gb ∧
    archive.group_builds scenario.two_builds scenario.uneven !! good = Some gg ∧
    (length gb < length gg)%nat ∧
    "build darwin-amd64 is missing os-arch target linux-amd64"
    = "build " +:+ bad +:+ " is missing os-arch target " +:+ good.
Proof.
  refine (newRuntime_error_names_two_groups scenario.two_builds scenario.uneven
            ["linux-amd64"; "darwin-amd64"] _ _ _).
  - vm_compute. reflexivity.
  - vm_compute. reflexivity.
Defined.

Lemma run_stops_at_first_failure_witness :
  modules.run_from "build"
    [{| modules.Type_ := "first"; modules.Pluggable_ := scenario.nop |};
     {| modules.Type_ := "second"; modules.Pluggable_ := scenario.fails |};
     {| modules.Type_ := "third"; modules.Pluggable_ := scenario.nop |}]
    scenario.initial
  = ({| modules.context := scenario.uneven; modules.world := ();
        modules.log :=
          [modules.ModuleBegin "first"; modules.ModuleEnd "first";
           modules.ModuleBegin "second"] |},
     Err "build:second: failed").
Proof.
  refine (run_stops_at_first_failure "build"
            [{| modules.Type_ := "first"; modules.Pluggable_ := scenario.nop |}]
            [{| modules.Type_ := "third"; modules.Pluggable_ := scenario.nop |}]
            {| modules.Type_ := "second"; modules.Pluggable_ := scenario.fails |}
            scenario.initial
            {| modules.context := scenario.uneven; modules.world := ();
               modules.log :=
                 [modules.ModuleBegin "first"; modules.ModuleEnd "first"] |}
            scenario.uneven () "failed" _ _).
  - vm_compute. reflexivity.
  - vm_compute. reflexivity.
Defined.

Lemma writeFile_accepts_short_source_witness :
  archive.writeFile scenario.cut_short "app" "dist/app"
    (archive.mksingleTarget "amd64" "" archive.CompressNONE ∅ [] "archive"
       "linux" "dist/out.tar" [],
     tar.NewWriter)
  = ((archive.mksingleTarget "amd64" "" archive.CompressNONE ∅ [] "archive"
        "linux" "dist/out.tar" [],
      {| tar.entries :=
           [{| tar.eHeader :=
                 {| tar.hName := "app"; tar.hSize := 10;
                    tar.hTypeflag := tar.TypeReg |};
               tar.eData := repeat Byte.x41 5 |}];
         tar.nb := 10 - 5;
         tar.trailer := false |}),
     Ok ()).
Proof.
  refine (writeFile_accepts_short_source scenario.cut_short "app" "dist/app"
            {| tar.fiName := "app"; tar.fiSize := 10; tar.fiKind := tar.Regular |}
            (repeat Byte.x41 5) _ tar.NewWriter _ _ _ _ _).
  - reflexivity.
  - reflexivity.
  - reflexivity.
  - vm_compute. discriminate.
  - vm_compute. discriminate.
Defined.

Lemma writeFile_after_short_member_fails_witness :
  archive.writeFile scenario.cut_short "next" "dist/app"
    (archive.mksingleTarget "amd64" "" archive.CompressNONE ∅ [] "archive"
       "linux" "dist/out.tar" [],
     {| tar.entries := []; tar.nb := 5; tar.trailer := false |})
  = ((archive.mksingleTarget "amd64" "" archive.CompressNONE ∅ [] "archive"
        "linux" "dist/out.tar" [],
      {| tar.entries := []; tar.nb := 5; tar.trailer := false |}),
     Err ("archive/tar: missed writing " +:+ pretty 5 +:+ " bytes")).
Proof.
  refine (writeFile_after_short_member_fails scenario.cut_short "next" "dist/app"
            {| tar.fiName := "app"; tar.fiSize := 10; tar.fiKind := tar.Regular |}
            _ {| tar.entries := []; tar.nb := 5; tar.trailer := false |} _ _ _).
  - reflexivity.
  - reflexivity.
  - vm_compute. reflexivity.
Defined.

Lemma singleTarget_run_registers_archive_witness :
  ctx.Artifacts_
    (archive.singleTarget_run scenario.intact
       (archive.mksingleTarget "amd64" "pkg" archive.CompressNONE ∅ ["README*"]
          "archive" "linux" "dist/out.tar" (ctx.Artifacts_ scenario.one_build))
       scenario.one_build []).1.1
  = ctx.Artifacts_ scenario.one_build
      ++ [{| ctx.Arch := "amd64"; ctx.Filename := "dist/out.tar";
             ctx.Format := ctx.FormatTar; ctx.Location := "dist/out.tar";
             ctx.Name := "archive"; ctx.OS := "linux" |}].
Proof.
  refine (singleTarget_run_registers_archive scenario.intact
            (archive.mksingleTarget "amd64" "pkg" archive.CompressNONE ∅
               ["README*"] "archive" "linux" "dist/out.tar"
               (ctx.Artifacts_ scenario.one_build))
            scenario.one_build _ [] _ _).
  vm_compute. reflexivity.
Defined.

Lemma getType_first_type_key_witness :
  modules.getType
    (yaml.mkNode yaml.MappingNode ""
       (mapping_content
          ([(scenario.scalar "name", scenario.scalar "x")]
             ++ (scenario.scalar "type", scenario.scalar "dump")
             :: [(scenario.scalar "type", scenario.scalar "other")])))
  = Ok "dump".
Proof.
  refine (proj1 (getType_first_type_key yaml.MappingNode ""
                   [(scenario.scalar "name", scenario.scalar "x")]
                   [(scenario.scalar "type", scenario.scalar "other")]
                   (scenario.scalar "type") (scenario.scalar "dump") _) _).
  - repeat constructor. simpl. discriminate.
  - reflexivity.
Defined.

Lemma UnmarshalYAML_stops_at_bad_entry_witness :
  ∃ mod',
    modules.UnmarshalYAML scenario.registry scenario.decode_any
      (modules.NewModules "build") scenario.broken_doc
    = (mod', Err ("item #" +:+ pretty 2%nat +:+ " of `" +:+ "build"
                  +:+ "` definition is not a map"))
    ∧ modules.Modules_ mod'
      = [{| modules.Type_ := "dump"; modules.Pluggable_ := scenario.fails |}].
Proof.
  refine (proj1 (UnmarshalYAML_stops_at_bad_entry scenario.registry
                   scenario.decode_any "build" ""
                   [scenario.entry "dump"] [scenario.entry "dump"]
                   (scenario.scalar "dump")
                   [{| modules.Type_ := "dump"; modules.Pluggable_ := scenario.fails |}]
                   _) _).
  - constructor; [|constructor].
    split; [reflexivity|]. split; [reflexivity|].
    exists "build:dump", (λ _, scenario.fails). split; vm_compute; reflexivity.
  - simpl. discriminate.
Defined.

Lemma Run_success_runs_all_in_order_witness :
  modules.log (modules.Run_ scenario.build_stage scenario.initial).1
  = modules.log scenario.initial
      ++ [modules.StageBegin "build"]
      ++ module_lines (modules.Modules_ scenario.build_stage)
      ++ [modules.StageEnd "build"].
Proof.
  refine (Run_success_runs_all_in_order scenario.build_stage scenario.initial
            _ _ _).
  - reflexivity.
  - vm_compute. reflexivity.
Defined.

Lemma intact_nonneg_sizes : nonneg_sizes scenario.intact.
Proof.
  intros p fi. unfold scenario.intact. simpl.
  destruct (String.eqb p "dist"); intros [= <-]; simpl; lia.
Defined.

Lemma intact_sizes_agree : sizes_agree scenario.intact.
Proof.
  intros p fi content rerr. unfold scenario.intact. simpl.
  destruct (String.eqb p "dist"); intros [= <-] [= <- _]; [discriminate|].
  reflexivity.
Defined.

Lemma cut_short_nonneg_sizes : nonneg_sizes scenario.cut_short.
Proof.
  intros p fi. unfold scenario.cut_short. simpl.
  destruct (String.eqb p "dist/app"); [intros [= <-]; simpl; lia|].
  destruct (String.eqb p "dist"); intros [= <-]; simpl; lia.
Defined.

Lemma archive_short_only_in_last_member_witness :
  ∃ file,
    (archive.singleTarget_run scenario.cut_short scenario.linux_target
       scenario.one_build []).1.2
    = [] ++ [(archive.tOutput scenario.linux_target, file)]
    ∧ short_only_last (archive.afTar file)
    ∧ (tar.well_formed (archive.afTar file) = true
       ↔ tar.nb (archive.afTar file) = 0).
Proof.
  refine (archive_short_only_in_last_member scenario.cut_short
            scenario.linux_target scenario.one_build []
            cut_short_nonneg_sizes _).
  reflexivity.
Defined.

Lemma writeFile_rejects_long_source_witness :
  archive.writeFile scenario.grown "app" "dist/app"
    (scenario.linux_target, tar.NewWriter)
  = ((scenario.linux_target,
      {| tar.entries :=
           [] ++ [{| tar.eHeader :=
                       {| tar.hName := "app"; tar.hSize := 3;
                          tar.hTypeflag := tar.TypeReg |};
                     tar.eData := take (Z.to_nat 3) (repeat Byte.x41 5) |}];
         tar.nb := 0;
         tar.trailer := false |}),
     Err ("copying " +:+ "dist/app" +:+ " to archive " +:+ "app" +:+ " ("
          +:+ pretty 3 +:+ " bytes written, " +:+ pretty 3
          +:+ " bytes reported): archive/tar: write too long")).
Proof.
  refine (writeFile_rejects_long_source scenario.grown "app" "dist/app"
            {| tar.fiName := "dist/app"; tar.fiSize := 3; tar.fiKind := tar.Regular |}
            (repeat Byte.x41 5) None scenario.linux_target tar.NewWriter
            _ _ _ _ _ _).
  - reflexivity.
  - reflexivity.
  - reflexivity.
  - simpl. lia.
  - simpl. lia.
  - simpl. lia.
Defined.

Lemma singleTarget_of_runtime_witness :
  archive.tOS scenario.linux_target +:+ "-" +:+ archive.tArch scenario.linux_target
  = "linux-amd64"
  ∧ archive.tTargets scenario.linux_target
    = group_of scenario.flat scenario.one_build "linux-amd64"
  ∧ ("linux-amd64" ∉ archive.Skip scenario.flat)
  ∧ archive.tName scenario.linux_target = archive.Name scenario.flat
  ∧ archive.tFiles scenario.linux_target = archive.Files scenario.flat
  ∧ archive.tDirsWritten scenario.linux_target = ∅.
Proof.
  refine (singleTarget_of_runtime scenario.intact
            (λ td name source,
               if String.eqb source "" then inl "pkg" else inl source)
            scenario.flat scenario.one_build scenario.one_build
            ["linux-amd64"]
            {| archive.Tar_ := scenario.flat;
               archive.targets :=
                 archive.group_builds scenario.flat scenario.one_build |}
            "linux-amd64" scenario.linux_target _ _).
  - vm_compute. reflexivity.
  - vm_compute. reflexivity.
Defined.

Lemma Run_registers_one_archive_per_group_witness :
  ∃ tars,
    ctx.Artifacts_
      (archive.Run scenario.intact scenario.literal scenario.two_builds
         ["linux-amd64"; "darwin-amd64"] ["linux-amd64"; "darwin-amd64"]
         scenario.even []).1.1
    = ctx.Artifacts_ scenario.even ++ tars
    ∧ map ctx.OsArch tars = ["linux-amd64"; "darwin-amd64"]
    ∧ Forall (λ a, ctx.Format a = ctx.FormatTar
                   ∧ ctx.Name a = archive.Name scenario.two_builds) tars
    ∧ same_settings scenario.even
        (archive.Run scenario.intact scenario.literal scenario.two_builds
           ["linux-amd64"; "darwin-amd64"] ["linux-amd64"; "darwin-amd64"]
           scenario.even []).1.1
    ∧ length
        (archive.Run scenario.intact scenario.literal scenario.two_builds
           ["linux-amd64"; "darwin-amd64"] ["linux-amd64"; "darwin-amd64"]
           scenario.even []).1.2
      = (length (@nil (string * archive.ArchiveFile)) + 2)%nat.
Proof.
  refine (Run_registers_one_archive_per_group scenario.intact scenario.literal
            scenario.two_builds
            ["linux-amd64"; "darwin-amd64"] ["linux-amd64"; "darwin-amd64"]
            scenario.even [] _ _ _).
  vm_compute. reflexivity.
Defined.

Lemma errNumTargets_reports_difference_witness :
  ∃ goodTargets,
    ascending goodTargets = true
    ∧ NoDup goodTargets
    ∧ (∀ x, x ∈ goodTargets ↔
            x ∈ ctx.OsArch <$> default [] (scenario.by_build !! "server")
            ∧ x ∉ ctx.OsArch <$> default [] (scenario.by_build !! "cli"))
    ∧ (default [] (scenario.by_build !! "cli") = [] →
       archive.errNumTargets "cli" "server" scenario.by_build
       = "no targets found for build" +:+ archive.plural goodTargets +:+ " "
           +:+ gostd.Join goodTargets ", ")
    ∧ (default [] (scenario.by_build !! "cli") ≠ [] →
       archive.errNumTargets "cli" "server" scenario.by_build
       = "build " +:+ "cli" +:+ " is missing os-arch target"
           +:+ archive.plural goodTargets +:+ " "
           +:+ gostd.Join goodTargets ", ").
Proof.
  refine (errNumTargets_reports_difference scenario.by_build "cli" "server"
            (default [] (scenario.by_build !! "server")) _ _).
  - vm_compute. reflexivity.
  - vm_compute. discriminate.
Defined.

Lemma Run_on_consistent_files_gives_whole_archives_witness :
  ∃ files,
    (archive.Run scenario.intact scenario.literal scenario.two_builds
       ["linux-amd64"; "darwin-amd64"] ["linux-amd64"; "darwin-amd64"]
       scenario.even []).1.2
    = [] ++ files
    ∧ length files = 2%nat
    ∧ Forall (λ f, tar.well_formed (archive.afTar f.2) = true) files.
Proof.
  refine (Run_on_consistent_files_gives_whole_archives scenario.intact
            scenario.literal scenario.two_builds
            ["linux-amd64"; "darwin-amd64"] ["linux-amd64"; "darwin-amd64"]
            scenario.even [] _ _ intact_nonneg_sizes intact_sizes_agree _).
  vm_compute. reflexivity.
Defined.

Lemma writeArtifact_member_follows_directories_witness :
  ∃ es e,
    tar.entries
      (archive.writeArtifact scenario.intact "dist"
         (scenario.artifact "server" "linux" "amd64" "dist/bin/server")
         (scenario.linux_target, tar.NewWriter)).1.2
    = es ++ [e]
    ∧ tar.hName (tar.eHeader e)
      = gostd.path_Join ["pkg"; gostd.TrimPrefix "dist/bin/server" ("dist" +:+ "/")]
    ∧ (gostd.Dir (tar.hName (tar.eHeader e)) ≠ "." →
       ∃ up,
         archive.ancestors
           (S (String.length (gostd.Dir (tar.hName (tar.eHeader e)))))
           (gostd.Dir (tar.hName (tar.eHeader e))) = Some up
         ∧ ∀ d, d ∈ gostd.Dir (tar.hName (tar.eHeader e)) :: up →
                (d +:+ "/") ∈ member_names es)
    ∧ dirs_have_headers
        (archive.writeArtifact scenario.intact "dist"
           (scenario.artifact "server" "linux" "amd64" "dist/bin/server")
           (scenario.linux_target, tar.NewWriter)).1.
Proof.
  refine (writeArtifact_member_follows_directories scenario.intact "dist"
            (scenario.artifact "server" "linux" "amd64" "dist/bin/server")
            (scenario.linux_target, tar.NewWriter) _ _ _).
  - intros d [b Hd]. vm_compute in Hd. discriminate.
  - vm_compute. reflexivity.
Defined.

Lemma Run_validation_failure_writes_nothing_witness :
  ∃ e, archive.Run scenario.intact scenario.literal scenario.two_builds
         ["linux-amd64"; "darwin-amd64"] ["linux-amd64"; "darwin-amd64"]
         scenario.uneven []
       = (scenario.uneven, [], Err e).
Proof.
  refine (Run_validation_failure_writes_nothing scenario.intact scenario.literal
            scenario.two_builds
            ["linux-amd64"; "darwin-amd64"] ["linux-amd64"; "darwin-amd64"]
            scenario.uneven [] _ _).
  - vm_compute. reflexivity.
  - exists "linux-amd64", "darwin-amd64",
      (default [] (archive.group_builds scenario.two_builds scenario.uneven
                     !! "linux-amd64")),
      (default [] (archive.group_builds scenario.two_builds scenario.uneven
                     !! "darwin-amd64")).
    split; [vm_compute; reflexivity|]. split; [vm_compute; reflexivity|].
    vm_compute. discriminate.
Defined.

Lemma run_stops_at_first_failing_target_witness :
  archive.run scenario.intact scenario.no_darwin
    {| archive.Tar_ := scenario.two_builds;
       archive.targets := archive.group_builds scenario.two_builds scenario.even |}
    (["linux-amd64"] ++ "darwin-amd64" :: []) scenario.even []
  = ((archive.run scenario.intact scenario.no_darwin
        {| archive.Tar_ := scenario.two_builds;
           archive.targets := archive.group_builds scenario.two_builds scenario.even |}
        ["linux-amd64"] scenario.even []).1.1,
     (archive.run scenario.intact scenario.no_darwin
        {| archive.Tar_ := scenario.two_builds;
           archive.targets := archive.group_builds scenario.two_builds scenario.even |}
        ["linux-amd64"] scenario.even []).1.2,
     Err "rendering pkg: no template for darwin").
Proof.
  refine (proj1 (run_stops_at_first_failing_target scenario.intact
                   scenario.no_darwin
                   {| archive.Tar_ := scenario.two_builds;
                      archive.targets :=
                        archive.group_builds scenario.two_builds scenario.even |}
                   ["linux-amd64"] [] "darwin-amd64"
                   scenario.even [] _ _ _ _
                   "rendering pkg: no template for darwin" _ _)).
  - vm_compute. reflexivity.
  - vm_compute. reflexivity.
Defined.
